(** * etl.py: songs, artists, users, time and songplays from the raw catalog
      and event records

    The data frames of [etl.py] are modelled as lists of typed rows (a data
    frame has no row order: every statement below is about membership,
    counts and duplicates, which do not depend on it).  Every column is
    nullable, as every column read from JSON is: a null is [None].  A
    column added by [withColumn] is computed from the values of the columns
    it names; a Python exception in a UDF aborts the job.  The files
    written by the job live in a store, a finite map from the output
    location to what was written there. *)

From Stdlib Require Import ZArith Lia.
From stdpp Require Import base option list strings gmap.

Local Open Scope string_scope.
Local Open Scope list_scope.
Local Open Scope Z_scope.

(** ** Values *)

(** A double column value, by the bit pattern (IEEE-754 binary64, as a
    64-bit number) of the normalised value: the engine compares and groups
    doubles with [-0.0] as [0.0] and every NaN as one NaN, so equal values
    are equal patterns.  The job only compares doubles for equality (join
    condition, duplicate removal); [200.0] is [0x4069000000000000]. *)
Definition double : Type := Z.

(** ** Raw input rows *)

Record SongRecord : Type := mkSongRecord {
  sr_song_id : option string;
  sr_title : option string;
  sr_artist_id : option string;
  sr_artist_name : option string;
  sr_artist_location : option string;
  sr_artist_latitude : option double;
  sr_artist_longitude : option double;
  sr_year : option Z;
  sr_duration : option double
}.

Record EventRecord : Type := mkEventRecord {
  ev_page : option string;
  ev_userId : option string;
  ev_firstName : option string;
  ev_lastName : option string;
  ev_gender : option string;
  ev_level : option string;
  ev_ts : option Z;
  ev_song : option string;
  ev_artist : option string;
  ev_length : option double;
  ev_sessionId : option Z;
  ev_location : option string;
  ev_userAgent : option string
}.

(** ** Output rows *)

Record songs_row : Type := mkSongs {
  so_song_id : option string;
  so_title : option string;
  so_artist_id : option string;
  so_year : option Z;
  so_duration : option double
}.

Record artists_row : Type := mkArtists {
  ar_artist_id : option string;
  ar_name : option string;
  ar_location : option string;
  ar_latitude : option double;
  ar_longitude : option double
}.

Record users_row : Type := mkUsers {
  us_user_id : option string;
  us_first_name : option string;
  us_last_name : option string;
  us_gender : option string;
  us_level : option string
}.

Record time_row : Type := mkTime {
  ti_start_time : option Z;
  ti_hour : option Z;
  ti_day : option Z;
  ti_week : option Z;
  ti_month : option Z;
  ti_year : option Z;
  ti_weekday : option string
}.

Record songplays_row : Type := mkSongplays {
  sp_start_time : option Z;
  sp_user_id : option string;
  sp_level : option string;
  sp_song_id : option string;
  sp_artist_id : option string;
  sp_session_id : option Z;
  sp_location : option string;
  sp_user_agent : option string;
  sp_year : option Z;
  sp_month : option Z
}.

#[global] Instance SongRecord_eq_dec : EqDecision SongRecord.
Proof. solve_decision. Defined.
#[global] Instance EventRecord_eq_dec : EqDecision EventRecord.
Proof. solve_decision. Defined.
#[global] Instance songs_row_eq_dec : EqDecision songs_row.
Proof. solve_decision. Defined.
#[global] Instance artists_row_eq_dec : EqDecision artists_row.
Proof. solve_decision. Defined.
#[global] Instance users_row_eq_dec : EqDecision users_row.
Proof. solve_decision. Defined.
#[global] Instance time_row_eq_dec : EqDecision time_row.
Proof. solve_decision. Defined.
#[global] Instance songplays_row_eq_dec : EqDecision songplays_row.
Proof. solve_decision. Defined.

(** ** The engine's operations on data frames *)

(** [dropDuplicates()]: one copy of every row; nulls compare equal here. *)
Definition dropDuplicates {A} `{EqDecision A} (df : list A) : list A :=
  remove_dups df.

(** SQL comparison [a == b]: null as soon as one side is null. *)
Definition sql_eq {A} `{EqDecision A} (a b : option A) : option bool :=
  match a, b with
  | Some x, Some y => Some (bool_decide (x = y))
  | _, _ => None
  end.

(** SQL conjunction [p & q] (three-valued). *)
Definition sql_and (p q : option bool) : option bool :=
  match p, q with
  | Some false, _ | _, Some false => Some false
  | Some true, Some true => Some true
  | _, _ => None
  end.

(** A row passes [where] or a join condition when the condition is true
    (neither false nor null). *)
Definition holds (c : option bool) : bool :=
  match c with Some true => true | _ => false end.

(** [df.join(right, cond, 'left')]: every left row with each right row that
    satisfies the condition, or once with a null right side when there is
    none. *)
Definition left_join {A B} (cond : A -> B -> option bool)
    (left : list A) (right : list B) : list (A * option B) :=
  flat_map (fun l =>
    match List.filter (fun r => holds (cond l r)) right with
    | [] => [(l, None)]
    | ms => List.map (fun r => (l, Some r)) ms
    end) left.

(** ** process_song_data: the songs and artists tables *)

Definition songs_select (r : SongRecord) : songs_row :=
  mkSongs (sr_song_id r) (sr_title r) (sr_artist_id r) (sr_year r)
          (sr_duration r).

Definition songs_table (df : list SongRecord) : list songs_row :=
  dropDuplicates (List.map songs_select df).

Definition artists_select (r : SongRecord) : artists_row :=
  mkArtists (sr_artist_id r) (sr_artist_name r) (sr_artist_location r)
            (sr_artist_latitude r) (sr_artist_longitude r).

Definition artists_table (df : list SongRecord) : list artists_row :=
  dropDuplicates (List.map artists_select df).

(** A row of the songs table read back as a catalog record: the projected
    columns keep their values, the columns the table does not have are
    null. *)
Definition songs_as_input (r : songs_row) : SongRecord :=
  mkSongRecord (so_song_id r) (so_title r) (so_artist_id r) None None None
               None (so_year r) (so_duration r).

(** A row of the artists table read back as a catalog record ([name] is
    again [artist_name], and so on). *)
Definition artists_as_input (r : artists_row) : SongRecord :=
  mkSongRecord None None (ar_artist_id r) (ar_name r) (ar_location r)
               (ar_latitude r) (ar_longitude r) None None.

(** ** Exceptions *)

(** A Python exception raised inside a UDF aborts the job. *)
Inductive exn : Type := TypeError | AnalysisException.

Inductive result (A : Type) : Type :=
| Ok (a : A)
| Raise (e : exn).
Arguments Ok {A} a.
Arguments Raise {A} e.

Definition rbind {A B} (m : result A) (f : A -> result B) : result B :=
  match m with
  | Ok a => f a
  | Raise e => Raise e
  end.

(** A UDF column is computed for every row; the first exception wins. *)
Fixpoint for_each_row {A B} (f : A -> result B) (df : list A)
    : result (list B) :=
  match df with
  | [] => Ok []
  | r :: rest =>
      rbind (f r) (fun r' =>
      rbind (for_each_row f rest) (fun rest' => Ok (r' :: rest')))
  end.

(** ** Python arithmetic of the timestamp UDF *)

(** A finite Python float (binary64): the value [fl_m * 2 ^ fl_e]. *)
Record float : Type := mkFloat { fl_m : Z; fl_e : Z }.

(** The integer nearest to [n / d], ties to the even one
    ([0 <= n], [0 < d]). *)
Definition div_nearest_even (n d : Z) : Z :=
  let q := n / d in
  let r := n mod d in
  if 2 * r <? d then q
  else if d <? 2 * r then q + 1
  else if Z.even q then q else q + 1.

(** [a / b] scaled by [2 ^ (- e)], as a fraction. *)
Definition scaled (a b e : Z) : Z * Z :=
  if 0 <=? e then (a, b * 2 ^ e) else (a * 2 ^ (- e), b).

(** The exponent that leaves [a / b] a 53-bit significand
    ([2 ^ 52 <= a / (b * 2 ^ e) < 2 ^ 53]). *)
Definition true_div_exp (a b : Z) : Z :=
  let e0 := Z.log2 a - Z.log2 b - 53 in
  if fst (scaled a b e0) / snd (scaled a b e0) <? 2 ^ 53 then e0 else e0 + 1.

(** [a / b] for Python ints [0 < a], [0 < b]: the quotient correctly rounded
    to a 53-bit significand.  (No overflow and no subnormal result occurs
    for a 64-bit [a] divided by 1000, the only use below.) *)
Definition true_div_pos (a b : Z) : float :=
  let e := true_div_exp a b in
  mkFloat (div_nearest_even (fst (scaled a b e)) (snd (scaled a b e))) e.

(** [a / b] for Python ints, [0 < b]. *)
Definition true_div (a b : Z) : float :=
  if a =? 0 then mkFloat 0 0
  else if 0 <? a then true_div_pos a b
  else mkFloat (- fl_m (true_div_pos (- a) b)) (fl_e (true_div_pos (- a) b)).

(** [int(x)] of a float: truncation toward zero. *)
Definition int_of_float (x : float) : Z :=
  if 0 <=? fl_e x then fl_m x * 2 ^ fl_e x
  else Z.quot (fl_m x) (2 ^ (- fl_e x)).

(** The lambda of [get_timestamp]: [int(int(ts_ms) / 1000)]. *)
Definition get_timestamp_lambda (ts_ms : Z) : Z :=
  int_of_float (true_div ts_ms 1000).

(** What the engine keeps of a Python int returned by a UDF declared
    [IntegerType()]: the value when it is a 32-bit signed integer, null
    otherwise. *)
Definition IntegerType (v : Z) : option Z :=
  if (- 2147483648 <=? v) && (v <=? 2147483647) then Some v else None.

(** The UDF [get_timestamp] on a [ts] column value: a null reaches the
    lambda as [None], and [int(None)] raises. *)
Definition get_timestamp (ts : option Z) : result (option Z) :=
  match ts with
  | None => Raise TypeError
  | Some ts_ms => Ok (IntegerType (get_timestamp_lambda ts_ms))
  end.

(** ** Calendar *)

(** Year, month and day of month of a day count since 1970-01-01
    (proleptic Gregorian calendar). *)
Definition civil_of_days (days : Z) : Z * Z * Z :=
  let z := days + 719468 in
  let era := z / 146097 in
  let doe := z mod 146097 in
  let yoe := (doe - doe / 1460 + doe / 36524 - doe / 146096) / 365 in
  let doy := doe - (365 * yoe + yoe / 4 - yoe / 100) in
  let mp := (5 * doy + 2) / 153 in
  let d := doy - (153 * mp + 2) / 5 + 1 in
  let m := if mp <? 10 then mp + 3 else mp - 9 in
  let y := yoe + era * 400 + (if m <=? 2 then 1 else 0) in
  (y, m, d).

Definition year_of_days (days : Z) : Z := fst (fst (civil_of_days days)).
Definition month_of_days (days : Z) : Z := snd (fst (civil_of_days days)).
Definition dayofmonth_of_days (days : Z) : Z := snd (civil_of_days days).

(** Day count of the first of January of a year. *)
Definition days_of_jan1 (y : Z) : Z :=
  let y' := y - 1 in
  365 * y' + y' / 4 - y' / 100 + y' / 400 - 719162.

(** ISO day of week, Monday = 1 .. Sunday = 7 (1970-01-01 was a
    Thursday). *)
Definition iso_weekday (days : Z) : Z := (days + 3) mod 7 + 1.

(** Number of ISO weeks of a year. *)
Definition iso_weeks_in_year (y : Z) : Z :=
  let p y := (y + y / 4 - y / 100 + y / 400) mod 7 in
  if (p y =? 4) || (p (y - 1) =? 3) then 53 else 52.

(** ISO week of year. *)
Definition weekofyear_of_days (days : Z) : Z :=
  let y := year_of_days days in
  let doy := days - days_of_jan1 y + 1 in
  let w := (doy - iso_weekday days + 10) / 7 in
  if w <? 1 then iso_weeks_in_year (y - 1)
  else if iso_weeks_in_year y <? w then 1
  else w.

(** Pattern [EEEE]: the full English name of the day of week. *)
Definition weekday_name (days : Z) : string :=
  match iso_weekday days with
  | 1 => "Monday"
  | 2 => "Tuesday"
  | 3 => "Wednesday"
  | 4 => "Thursday"
  | 5 => "Friday"
  | 6 => "Saturday"
  | _ => "Sunday"
  end.

(** ** process_log_data: the frame of play events *)

(** [df.where(df.page == 'NextSong')]. *)
Definition is_NextSong (e : EventRecord) : bool :=
  holds (sql_eq (ev_page e) (Some "NextSong")).

(** [orderBy(desc('ts'))]: [a] sorts strictly before [b]; a descending
    order puts the nulls last. *)
Definition ts_before (a b : option Z) : bool :=
  match a, b with
  | Some x, Some y => y <? x
  | Some _, None => true
  | None, _ => false
  end.

(** [ts_le a b]: [b] does not sort after [a], that is [a <= b] with null
    below every value. *)
Definition ts_le (a b : option Z) : bool := negb (ts_before a b).

(** [partitionBy('userId')]: rows of one window partition (nulls form a
    partition of their own). *)
Definition same_user (a b : EventRecord) : bool :=
  bool_decide (ev_userId a = ev_userId b).

(** The frame after [withColumn("row_number", ...)]. *)
Record LogRow : Type := mkLogRow {
  lr_event : EventRecord;
  lr_row_number : Z
}.

(** [row_number().over(users_window)] of the row [e] standing between the
    rows [before] and [after] of the frame: one more than the number of
    rows of its partition that the window order puts before it.  Rows with
    equal [ts] are ordered as they stand in the frame (the engine leaves
    their order open; every order of ties is the order of some
    arrangement of the frame). *)
Definition row_number (before after : list EventRecord) (e : EventRecord)
    : Z :=
  1 + Z.of_nat (length (List.filter
        (fun e' => same_user e' e && ts_le (ev_ts e) (ev_ts e')) before))
    + Z.of_nat (length (List.filter
        (fun e' => same_user e' e && ts_before (ev_ts e') (ev_ts e)) after)).

Fixpoint with_row_number (before df : list EventRecord) : list LogRow :=
  match df with
  | [] => []
  | e :: after =>
      mkLogRow e (row_number before after e)
      :: with_row_number (before ++ [e]) after
  end.

(** The frame [df] after the filter and the window column. *)
Definition play_events (log_data : list EventRecord) : list LogRow :=
  with_row_number [] (List.filter is_NextSong log_data).

Definition users_select (r : LogRow) : users_row :=
  let e := lr_event r in
  mkUsers (ev_userId e) (ev_firstName e) (ev_lastName e) (ev_gender e)
          (ev_level e).

Definition users_table (log_data : list EventRecord) : list users_row :=
  List.map users_select
    (List.filter (fun r => lr_row_number r =? 1) (play_events log_data)).

(** The frame after the timestamp, date and calendar columns. *)
Record TimedRow : Type := mkTimedRow {
  tr_row : LogRow;
  tr_timestamp : option Z;
  tr_date : option Z;
  tr_hour : option Z;
  tr_day : option Z;
  tr_week : option Z;
  tr_month : option Z;
  tr_year : option Z;
  tr_weekday : option string
}.

(** Calendar functions of the engine on a [DateType] column (a day count
    since 1970-01-01); null for null.  [hour] takes a timestamp: a date is
    cast to the start of its day, whose hour is 0. *)
Definition hour (date : option Z) : option Z := (fun _ => 0) <$> date.
Definition dayofmonth (date : option Z) : option Z :=
  dayofmonth_of_days <$> date.
Definition weekofyear (date : option Z) : option Z :=
  weekofyear_of_days <$> date.
Definition month (date : option Z) : option Z := month_of_days <$> date.
Definition year (date : option Z) : option Z := year_of_days <$> date.
Definition date_format_EEEE (date : option Z) : option string :=
  weekday_name <$> date.

Section LocalZone.

(** Offset of the local time zone from UTC at an instant, in seconds. *)
Variable utc_offset : Z -> Z.

(** [datetime.fromtimestamp(ts)]: the local wall clock, as seconds since
    1970-01-01T00:00:00 of the local calendar. *)
Definition fromtimestamp (ts : Z) : Z := ts + utc_offset ts.

(** What the engine keeps of a datetime returned by a UDF declared
    [DateType()]: its calendar day, as a day count. *)
Definition DateType (local : Z) : Z := local / 86400.

(** The UDF [get_datetime] on a [timestamp] column value:
    [datetime.fromtimestamp(None)] raises. *)
Definition get_datetime (ts : option Z) : result (option Z) :=
  match ts with
  | None => Raise TypeError
  | Some s => Ok (Some (DateType (fromtimestamp s)))
  end.

(** The columns added to one row by lines 70 to 84. *)
Definition with_time_columns (r : LogRow) : result TimedRow :=
  rbind (get_timestamp (ev_ts (lr_event r))) (fun timestamp =>
  rbind (get_datetime timestamp) (fun date =>
  Ok (mkTimedRow r timestamp date (hour date) (dayofmonth date)
        (weekofyear date) (month date) (year date)
        (date_format_EEEE date)))).

(** The frame [df] of line 84. *)
Definition timed_events (log_data : list EventRecord)
    : result (list TimedRow) :=
  for_each_row with_time_columns (play_events log_data).

Definition time_select (r : TimedRow) : time_row :=
  mkTime (tr_timestamp r) (tr_hour r) (tr_day r) (tr_week r) (tr_month r)
         (tr_year r) (tr_weekday r).

Definition time_table (log_data : list EventRecord)
    : result (list time_row) :=
  rbind (timed_events log_data) (fun df =>
  Ok (dropDuplicates (List.map time_select df))).

(** The join condition of line 95, on the event of a row of [df] and a
    catalog row. *)
Definition match_cond (e : EventRecord) (s : SongRecord) : option bool :=
  sql_and (sql_and (sql_eq (ev_song e) (sr_title s))
                   (sql_eq (ev_artist e) (sr_artist_name s)))
          (sql_eq (ev_length e) (sr_duration s)).

Definition join_cond (r : TimedRow) (s : SongRecord) : option bool :=
  match_cond (lr_event (tr_row r)) s.

Definition songplays_select (j : TimedRow * option SongRecord)
    : songplays_row :=
  let e := lr_event (tr_row (fst j)) in
  mkSongplays (tr_timestamp (fst j)) (ev_userId e) (ev_level e)
              (snd j ≫= sr_song_id) (snd j ≫= sr_artist_id)
              (ev_sessionId e) (ev_location e) (ev_userAgent e)
              (year (tr_date (fst j))) (month (tr_date (fst j))).

Definition songplays_table (log_data : list EventRecord)
    (song_df : list SongRecord) : result (list songplays_row) :=
  rbind (timed_events log_data) (fun df =>
  Ok (List.map songplays_select (left_join join_cond df song_df))).

End LocalZone.

(** ** The table sink *)

(** A value of a partition column, as it names a directory
    ([year=2018], [artist_id=AR...], or the default name for a null). *)
Inductive pval : Type :=
| PNull
| PInt (z : Z)
| PStr (s : string).

#[global] Instance pval_eq_dec : EqDecision pval.
Proof. solve_decision. Defined.

Definition pint (v : option Z) : pval := from_option PInt PNull v.
Definition pstr (v : option string) : pval := from_option PStr PNull v.

(** The data files of a written table: the rows under each partition
    directory, a directory being the values of the partition columns. *)
Abbreviation files A := (list (list pval * list A)).

Fixpoint add_row {A} (dir : list pval) (r : A) (fs : files A) : files A :=
  match fs with
  | [] => [(dir, [r])]
  | (dir', rows) :: fs' =>
      if decide (dir = dir') then (dir', r :: rows) :: fs'
      else (dir', rows) :: add_row dir r fs'
  end.

(** [partitionBy(cols)]: every row goes under the directory of its own
    values of the partition columns. *)
Fixpoint partitionBy {A} (dir_of : A -> list pval) (df : list A) : files A :=
  match df with
  | [] => []
  | r :: rest => add_row (dir_of r) r (partitionBy dir_of rest)
  end.

Inductive table_files : Type :=
| SongsFiles (fs : files songs_row)
| ArtistsFiles (fs : files artists_row)
| UsersFiles (fs : files users_row)
| TimeFiles (fs : files time_row)
| SongplaysFiles (fs : files songplays_row).

(** What lies at an output location: the partition columns and the data
    files. *)
Record dataset : Type := mkDataset {
  ds_partition_columns : list string;
  ds_files : table_files
}.

(** The object store: output location to dataset. *)
Abbreviation store := (gmap string dataset).

(** A step of the job: it changes the store and returns or raises. *)
Definition job (A : Type) : Type := store -> store * result A.

#[global] Instance job_ret : MRet job := fun A a st => (st, Ok a).

#[global] Instance job_bind : MBind job := fun A B f m st =>
  match m st with
  | (st', Ok a) => f a st'
  | (st', Raise e) => (st', Raise e)
  end.

(** A frame is computed when an action needs it, here the write that
    follows: an exception of a UDF aborts the job at that point, with the
    earlier writes done.  (What the engine leaves at the location of the
    failed write itself is outside the model.) *)
Definition force {A} (r : result A) : job A := fun st => (st, r).

Inductive SaveMode : Type := Append | Overwrite | ErrorIfExists | Ignore.

Definition append_files (old new : table_files) : option table_files :=
  match old, new with
  | SongsFiles a, SongsFiles b => Some (SongsFiles (a ++ b))
  | ArtistsFiles a, ArtistsFiles b => Some (ArtistsFiles (a ++ b))
  | UsersFiles a, UsersFiles b => Some (UsersFiles (a ++ b))
  | TimeFiles a, TimeFiles b => Some (TimeFiles (a ++ b))
  | SongplaysFiles a, SongplaysFiles b => Some (SongplaysFiles (a ++ b))
  | _, _ => None
  end.

(** [df.write.mode(m).partitionBy(cols).parquet(path)]. *)
Definition write_parquet (m : SaveMode) (cols : list string)
    (path : string) (fs : table_files) : job unit := fun st =>
  match m, st !! path with
  | Overwrite, _ | _, None => (<[path := mkDataset cols fs]> st, Ok tt)
  | Ignore, Some _ => (st, Ok tt)
  | ErrorIfExists, Some _ => (st, Raise AnalysisException)
  | Append, Some old =>
      match append_files (ds_files old) fs with
      | Some fs' =>
          (<[path := mkDataset (ds_partition_columns old) fs']> st, Ok tt)
      | None => (st, Raise AnalysisException)
      end
  end.

(** What the session reads: the rows under [song_data/*/*/*/*.json] and
    under [log_data/*/*/*.json] of the input location. *)
Record SparkSession : Type := mkSparkSession {
  song_data : list SongRecord;
  log_data : list EventRecord
}.

Definition process_song_data (spark : SparkSession) (output_data : string)
    : job unit :=
  let df := song_data spark in
  write_parquet Overwrite ["year"; "artist_id"]
    (output_data +:+ "songs_table")
    (SongsFiles (partitionBy
       (fun r => [pint (so_year r); pstr (so_artist_id r)])
       (songs_table df))) ;;
  write_parquet Overwrite [] (output_data +:+ "artists_table")
    (ArtistsFiles (partitionBy (fun _ => []) (artists_table df))).

Definition process_log_data (utc_offset : Z -> Z) (spark : SparkSession)
    (output_data : string) : job unit :=
  let df := log_data spark in
  write_parquet Overwrite [] (output_data +:+ "users_table")
    (UsersFiles (partitionBy (fun _ => []) (users_table df))) ;;
  time_table ← force (time_table utc_offset df) ;
  write_parquet Overwrite ["year"; "month"] (output_data +:+ "time_table")
    (TimeFiles (partitionBy
       (fun r => [pint (ti_year r); pint (ti_month r)]) time_table)) ;;
  songplays_table ← force (songplays_table utc_offset df (song_data spark)) ;
  write_parquet Overwrite ["year"; "month"]
    (output_data +:+ "songplays_table")
    (SongplaysFiles (partitionBy
       (fun r => [pint (sp_year r); pint (sp_month r)]) songplays_table)).

Definition main (utc_offset : Z -> Z) (spark : SparkSession) : job unit :=
  let output_data := "s3a://udacity-dend/processed/" in
  process_song_data spark output_data ;;
  process_log_data utc_offset spark output_data.

(** ** Reference notions and the inputs of the worked examples *)

(** Hour of the day of an epoch-seconds value on the local wall clock. *)
Definition hour_of_day (utc_offset : Z -> Z) (s : Z) : Z :=
  (s + utc_offset s) mod 86400 / 3600.

(** Number of catalog rows an event matches in the join. *)
Definition catalog_matches (song_df : list SongRecord) (e : EventRecord)
    : nat :=
  length (List.filter (fun s => holds (match_cond e s)) song_df).

(** A cluster whose local zone is UTC. *)
Definition utc : Z -> Z := fun _ => 0.

(** The catalog record and the event of the end-to-end scenario
    ([1.0], [2.0] and [200.0] by their bit patterns). *)
Definition scenario_song : SongRecord :=
  mkSongRecord (Some "S1") (Some "Test") (Some "A1") (Some "Artist")
    (Some "NYC") (Some 4607182418800017408) (Some 4611686018427387904)
    (Some 2000) (Some 4641240890982006784).

Definition scenario_event : EventRecord :=
  mkEventRecord (Some "NextSong") (Some "1") (Some "A") (Some "B")
    (Some "M") (Some "free") (Some 946684800000) (Some "Test")
    (Some "Artist") (Some 4641240890982006784) (Some 1) (Some "NYC")
    (Some "UA").

(** The scenario's event at another instant or on another page. *)
Definition event_at (ts : Z) : EventRecord :=
  mkEventRecord (Some "NextSong") (Some "1") (Some "A") (Some "B")
    (Some "M") (Some "free") (Some ts) (Some "Test") (Some "Artist")
    (Some 4641240890982006784) (Some 1) (Some "NYC") (Some "UA").

Definition event_on_page (page : string) : EventRecord :=
  mkEventRecord (Some page) (Some "1") (Some "A") (Some "B") (Some "M")
    (Some "paid") (Some 946684800000) (Some "Test") (Some "Artist")
    (Some 4641240890982006784) (Some 1) (Some "NYC") (Some "UA").

(** User 10 of the users example: free at [ts = 100], paid at
    [ts = 500]. *)
Definition user10_event (ts : Z) (level : string) : EventRecord :=
  mkEventRecord (Some "NextSong") (Some "10") (Some "A") (Some "B")
    (Some "M") (Some level) (Some ts) None None None (Some 1) None None.

(** Every row of the partition of [uid] in [df] has a row of that partition
    in [before] with at least its [ts]. *)
Definition covered (uid : option string) (before df : list EventRecord)
    : Prop :=
  Forall (fun a => ev_userId a = uid ->
    Exists (fun b => ev_userId b = uid /\ ts_le (ev_ts a) (ev_ts b) = true)
      before) df.

#[global] Instance covered_dec uid before df : Decision (covered uid before df).
Proof. unfold covered. apply _. Defined.

(** The rows of the frame that make the users row of [uid]. *)
Definition first_of (uid : option string) (r : LogRow) : bool :=
  (lr_row_number r =? 1) && bool_decide (ev_userId (lr_event r) = uid).

(** The row of the time table for the second [s]. *)
Definition time_row_of (utc_offset : Z -> Z) (s : Z) : time_row :=
  let date := DateType (fromtimestamp utc_offset s) in
  mkTime (Some s) (Some 0) (Some (dayofmonth_of_days date))
         (Some (weekofyear_of_days date)) (Some (month_of_days date))
         (Some (year_of_days date)) (Some (weekday_name date)).

(** The songplays row of the end-to-end scenario on a cluster in UTC. *)
Definition scenario_songplay : songplays_row :=
  mkSongplays (Some 946684800) (Some "1") (Some "free") (Some "S1")
    (Some "A1") (Some 1) (Some "NYC") (Some "UA") (Some 2000) (Some 1).

(** The session of the end-to-end scenario, and a store that already
    holds a songs table from an earlier run. *)
Definition scenario_session : SparkSession :=
  mkSparkSession [scenario_song] [scenario_event].

Definition earlier_store : gmap string dataset :=
  {[ "s3a://udacity-dend/processed/songs_table" :=
       mkDataset ["year"; "artist_id"]
         (SongsFiles
            [([PInt 1999; PStr "A0"],
              [mkSongs (Some "S0") (Some "Old") (Some "A0") (Some 1999)
                       (Some 4641240890982006784)])]) ]}.

(** The songplays rows of one play event, for a table built from the
    catalog [song_df]: as many rows as catalog rows match, one when none
    does; they carry the event's columns, and null ids when none
    matches. *)
Definition rows_of_event (song_df : list SongRecord) (e : EventRecord)
    (g : list songplays_row) : Prop :=
  length g = Nat.max 1 (catalog_matches song_df e) /\
  Forall (fun row =>
    sp_user_id row = ev_userId e /\ sp_level row = ev_level e /\
    sp_session_id row = ev_sessionId e /\ sp_location row = ev_location e /\
    sp_user_agent row = ev_userAgent e) g /\
  (catalog_matches song_df e = 0%nat ->
   exists row, g = [row] /\ sp_song_id row = None /\
     sp_artist_id row = None).




(** * Properties *)

(** ** Catalog extractor *)

Section Dedup.
Context {A : Type} `{EqDecision A}.

Lemma dropDuplicates_NoDup (df : list A) : NoDup (dropDuplicates df).
Proof. apply NoDup_remove_dups. Qed.

Lemma dropDuplicates_elem (df : list A) (x : A) :
  x ∈ dropDuplicates df ↔ x ∈ df.
Proof. apply elem_of_remove_dups. Qed.

Lemma dropDuplicates_id (df : list A) :
  NoDup df -> dropDuplicates df = df.
Proof.
  unfold dropDuplicates.
  induction 1 as [|x l Hx Hl IH]; simpl; [done|].
  rewrite IH. by destruct (decide_rel elem_of x l).
Qed.

Lemma dropDuplicates_idemp (df : list A) :
  dropDuplicates (dropDuplicates df) = dropDuplicates df.
Proof. apply dropDuplicates_id, dropDuplicates_NoDup. Qed.
End Dedup.

Lemma songs_select_as_input (r : songs_row) :
  songs_select (songs_as_input r) = r.
Proof. by destruct r. Qed.

Lemma artists_select_as_input (r : artists_row) :
  artists_select (artists_as_input r) = r.
Proof. by destruct r. Qed.

Lemma map_select_as_input {A B} (f : B -> A) (g : A -> B) (l : list A) :
  (forall x, f (g x) = x) -> List.map f (List.map g l) = l.
Proof.
  intros Hfg. rewrite List.map_map.
  induction l as [|x l IH]; simpl; [done|]. by rewrite Hfg, IH.
Qed.

(** C6. For every catalog the songs table and the artists table hold no
    row twice, and extracting again from either table, read back as input
    with the columns it has, returns that table unchanged. *)
Theorem catalog_extraction_fixed_point (df : list SongRecord) :
  NoDup (songs_table df) /\ NoDup (artists_table df) /\
  songs_table (List.map songs_as_input (songs_table df)) = songs_table df /\
  artists_table (List.map artists_as_input (artists_table df))
    = artists_table df.
Proof.
  repeat split.
  - apply dropDuplicates_NoDup.
  - apply dropDuplicates_NoDup.
  - unfold songs_table at 1.
    rewrite (map_select_as_input _ _ _ songs_select_as_input).
    apply dropDuplicates_idemp.
  - unfold artists_table at 1.
    rewrite (map_select_as_input _ _ _ artists_select_as_input).
    apply dropDuplicates_idemp.
Qed.

(** ** The timestamp UDF *)

Lemma div_nearest_even_lower (n d : Z) :
  0 < d -> n / d <= div_nearest_even n d.
Proof.
  intros Hd. unfold div_nearest_even.
  repeat case_match; lia.
Qed.

Lemma div_nearest_even_upper (n d : Z) :
  0 < d ->
  div_nearest_even n d = n / d \/
  (div_nearest_even n d = n / d + 1 /\ d <= 2 * (n mod d)).
Proof.
  intros Hd. unfold div_nearest_even.
  repeat case_match; lia.
Qed.

Lemma int_of_float_neg_exp (m e : Z) :
  0 <= m -> e < 0 -> int_of_float (mkFloat m e) = m / 2 ^ (- e).
Proof.
  intros Hm He. unfold int_of_float; simpl.
  destruct (Z.leb_spec 0 e); [lia|].
  apply Z.quot_div_nonneg; [done|]. apply Z.pow_pos_nonneg; lia.
Qed.


Lemma true_div_exp_1000 (a : Z) :
  true_div_exp a 1000 = Z.log2 a - 62 \/ true_div_exp a 1000 = Z.log2 a - 61.
Proof.
  unfold true_div_exp.
  replace (Z.log2 1000) with 9 by reflexivity.
  case_match; lia.
Qed.

Lemma true_div_pos_exact (a : Z) :
  0 < a -> a / 1000 < 2 ^ 32 ->
  int_of_float (true_div_pos a 1000) = a / 1000.
Proof.
  intros Ha Hq.
  assert (Hl : Z.log2 a < 42).
  { apply Z.log2_lt_pow2; [done|].
    pose proof (Z.mod_pos_bound a 1000 ltac:(lia)).
    pose proof (Z.div_mod a 1000 ltac:(lia)). lia. }
  unfold true_div_pos.
  pose proof (true_div_exp_1000 a) as He.
  set (e := true_div_exp a 1000) in *.
  unfold scaled. destruct (Z.leb_spec 0 e); [lia|]. simpl fst; simpl snd.
  set (s := - e) in *.
  assert (HP : 2 ^ 20 <= 2 ^ s) by (apply Z.pow_le_mono_r; lia).
  set (P := 2 ^ s) in *.
  pose proof (div_nearest_even_lower (a * P) 1000 ltac:(lia)) as Hlo.
  pose proof (div_nearest_even_upper (a * P) 1000 ltac:(lia)) as Hup.
  set (m := div_nearest_even (a * P) 1000) in *.
  pose proof (Z.div_mod a 1000 ltac:(lia)) as Da.
  pose proof (Z.mod_pos_bound a 1000 ltac:(lia)) as Ba.
  pose proof (Z.div_mod (a * P) 1000 ltac:(lia)) as Dn.
  pose proof (Z.mod_pos_bound (a * P) 1000 ltac:(lia)) as Bn.
  assert (0 <= a / 1000) by (apply Z.div_pos; lia).
  set (k := a / 1000) in *. set (r := a mod 1000) in *.
  set (q := (a * P) / 1000) in *. set (r' := (a * P) mod 1000) in *.
  rewrite int_of_float_neg_exp; [|nia|lia].
  fold s. fold P.
  symmetry. apply Z.div_unique with (r := m - k * P).
  2: lia.
  left. split.
  - nia.
  - destruct Hup as [->|[-> Hr]]; nia.
Qed.

Lemma true_div_exp_normal (a : Z) :
  0 < a -> 0 <= true_div_exp a 1000 ->
  2 ^ 52 <= a / (1000 * 2 ^ true_div_exp a 1000).
Proof.
  intros Ha. unfold true_div_exp.
  replace (Z.log2 1000) with 9 by reflexivity.
  set (e0 := Z.log2 a - 9 - 53).
  destruct (Z.log2_spec a Ha) as [Hlo _].
  assert (El : Z.log2 a = 62 + e0) by (unfold e0; lia).
  clearbody e0. rewrite El in Hlo. clear El.
  destruct (Z.ltb_spec (fst (scaled a 1000 e0) / snd (scaled a 1000 e0))
              (2 ^ 53)) as [_|Hq]; lazy iota; intros He.
  - pose proof (Z.pow_pos_nonneg 2 e0 ltac:(lia) He) as HP0.
    apply Z.div_le_lower_bound; [lia|].
    rewrite Z.pow_add_r in Hlo by lia.
    lia.
  - unfold scaled in Hq. destruct (Z.leb_spec 0 e0) as [H0|H0];
      simpl in Hq.
    + rewrite Z.pow_add_r by lia.
      pose proof (Z.pow_pos_nonneg 2 e0 ltac:(lia) ltac:(lia)) as HP.
      set (P := 2 ^ e0) in *.
      apply Z.div_le_lower_bound; [lia|].
      pose proof (Z.mul_div_le a (1000 * P) ltac:(lia)). nia.
    + replace e0 with (-1) in * by lia. simpl Z.opp in Hq.
      replace (-1 + 1) with 0 by lia.
      apply Z.div_le_lower_bound; [lia|].
      change (2 ^ (- (-1))) with 2 in Hq.
      pose proof (Z.mul_div_le (a * 2) 1000 ltac:(lia)). lia.
Qed.

Lemma true_div_pos_lower (a K : Z) :
  0 < a -> 0 <= K <= 2 ^ 52 -> K <= a / 1000 ->
  K <= int_of_float (true_div_pos a 1000).
Proof.
  intros Ha HK Hq.
  unfold true_div_pos.
  pose proof (true_div_exp_normal a Ha) as Hn.
  set (e := true_div_exp a 1000) in *.
  unfold scaled. destruct (Z.leb_spec 0 e) as [He|He]; simpl fst; simpl snd.
  - specialize (Hn He).
    pose proof (Z.pow_pos_nonneg 2 e ltac:(lia) He) as HP.
    pose proof (div_nearest_even_lower a (1000 * 2 ^ e) ltac:(lia)) as Hlo.
    unfold int_of_float; simpl.
    destruct (Z.leb_spec 0 e); [|lia]. nia.
  - pose proof (Z.pow_pos_nonneg 2 (- e) ltac:(lia) ltac:(lia)) as HP.
    set (P := 2 ^ (- e)) in *.
    pose proof (div_nearest_even_lower (a * P) 1000 ltac:(lia)) as Hlo.
    assert (0 <= a * P / 1000) by (apply Z.div_pos; nia).
    rewrite int_of_float_neg_exp; [|lia|lia].
    fold P. apply Z.div_le_lower_bound; [lia|].
    assert (K * P <= a * P / 1000); [|lia].
    apply Z.div_le_lower_bound; [lia|].
    pose proof (Z.mul_div_le a 1000 ltac:(lia)). nia.
Qed.

Lemma int_of_float_opp (m e : Z) :
  int_of_float (mkFloat (- m) e) = - int_of_float (mkFloat m e).
Proof.
  unfold int_of_float; simpl. destruct (Z.leb_spec 0 e); [lia|].
  apply Z.quot_opp_l. pose proof (Z.pow_pos_nonneg 2 (- e)). lia.
Qed.

Lemma get_timestamp_lambda_pos (a : Z) :
  0 < a -> get_timestamp_lambda a = int_of_float (true_div_pos a 1000).
Proof.
  intros Ha. unfold get_timestamp_lambda, true_div.
  destruct (Z.eqb_spec a 0); [lia|]. destruct (Z.ltb_spec 0 a); [done|lia].
Qed.

Lemma get_timestamp_lambda_neg (a : Z) :
  a < 0 -> get_timestamp_lambda a = - int_of_float (true_div_pos (- a) 1000).
Proof.
  intros Ha. unfold get_timestamp_lambda, true_div.
  destruct (Z.eqb_spec a 0); [lia|]. destruct (Z.ltb_spec 0 a); [lia|].
  rewrite int_of_float_opp. by destruct (true_div_pos (- a) 1000).
Qed.

(** In the range of the 32-bit integers (and one step beyond) the lambda
    is the truncated quotient. *)
Lemma get_timestamp_lambda_exact (ts : Z) :
  - 2 ^ 32 < Z.quot ts 1000 < 2 ^ 32 ->
  get_timestamp_lambda ts = Z.quot ts 1000.
Proof.
  intros Hq.
  destruct (Z.lt_trichotomy ts 0) as [Hneg|[->|Hpos]].
  - rewrite get_timestamp_lambda_neg by done.
    replace ts with (- - ts) in Hq |- * at 2 by lia.
    rewrite Z.quot_opp_l in Hq |- * by lia.
    rewrite Z.quot_div_nonneg in Hq |- * by lia.
    rewrite true_div_pos_exact; lia.
  - reflexivity.
  - rewrite get_timestamp_lambda_pos by done.
    rewrite Z.quot_div_nonneg in Hq |- * by lia.
    apply true_div_pos_exact; lia.
Qed.

Lemma get_timestamp_lambda_opp (ts : Z) :
  get_timestamp_lambda (- ts) = - get_timestamp_lambda ts.
Proof.
  destruct (Z.lt_trichotomy ts 0) as [Hneg|[->|Hpos]].
  - rewrite (get_timestamp_lambda_neg ts), get_timestamp_lambda_pos by lia.
    lia.
  - reflexivity.
  - rewrite (get_timestamp_lambda_pos ts), get_timestamp_lambda_neg by lia.
    by rewrite Z.opp_involutive.
Qed.

Lemma get_timestamp_lambda_large (ts K : Z) :
  0 <= K <= 2 ^ 52 -> K <= Z.quot ts 1000 -> K <= get_timestamp_lambda ts.
Proof.
  intros HK Hq.
  destruct (Z_lt_le_dec (Z.quot ts 1000) (2 ^ 32)) as [Hs|Hb].
  - rewrite get_timestamp_lambda_exact; lia.
  - assert (0 < ts).
    { destruct (Z_lt_le_dec 0 ts) as [|Hn]; [done|].
      pose proof (Z.quot_opp_l (- ts) 1000 ltac:(lia)) as E.
      rewrite Z.opp_involutive in E.
      pose proof (Z.quot_pos (- ts) 1000 ltac:(lia) ltac:(lia)). lia. }
    rewrite get_timestamp_lambda_pos by done.
    rewrite Z.quot_div_nonneg in Hq by lia.
    by apply true_div_pos_lower.
Qed.

(** The UDF on a non-null [ts]: the truncated quotient when it is a 32-bit
    integer, null otherwise. *)
Lemma get_timestamp_quot (ts : Z) :
  get_timestamp (Some ts) = Ok (IntegerType (Z.quot ts 1000)).
Proof.
  unfold get_timestamp. f_equal.
  destruct (Z_lt_le_dec (Z.quot ts 1000) (2 ^ 32)) as [Hs|Hb].
  - destruct (Z_lt_le_dec (- 2 ^ 32) (Z.quot ts 1000)) as [Hs'|Hb'].
    + by rewrite get_timestamp_lambda_exact.
    + pose proof (get_timestamp_lambda_large (- ts) (2 ^ 32)) as Hl.
      rewrite get_timestamp_lambda_opp, Z.quot_opp_l in Hl by lia.
      specialize (Hl ltac:(lia) ltac:(lia)).
      unfold IntegerType.
      destruct (Z.leb_spec (-2147483648) (get_timestamp_lambda ts)); [lia|].
      destruct (Z.leb_spec (-2147483648) (Z.quot ts 1000)); [lia|done].
  - pose proof (get_timestamp_lambda_large ts (2 ^ 32) ltac:(lia) Hb) as Hl.
    unfold IntegerType.
    destruct (Z.leb_spec (get_timestamp_lambda ts) 2147483647); [lia|].
    destruct (Z.leb_spec (Z.quot ts 1000) 2147483647); [lia|].
    by rewrite !andb_false_r.
Qed.

(** Far beyond 32 bits the float division rounds up: there the lambda is
    not the truncated quotient (and the column is null). *)
Example get_timestamp_lambda_rounds :
  get_timestamp_lambda 17592186044416999 = 17592186044417 /\
  Z.quot 17592186044416999 1000 = 17592186044416.
Proof. split; vm_compute; reflexivity. Qed.

Lemma get_timestamp_in_range (ts : Z) :
  - 2147483648 <= Z.quot ts 1000 <= 2147483647 ->
  get_timestamp (Some ts) = Ok (Some (Z.quot ts 1000)).
Proof.
  intros Hq. rewrite get_timestamp_quot. unfold IntegerType.
  destruct (Z.leb_spec (-2147483648) (Z.quot ts 1000)); [|lia].
  destruct (Z.leb_spec (Z.quot ts 1000) 2147483647); [done|lia].
Qed.

Lemma with_time_columns_timestamp (utc_offset : Z -> Z) (r : LogRow)
    (s : Z) :
  get_timestamp (ev_ts (lr_event r)) = Ok (Some s) ->
  exists r', with_time_columns utc_offset r = Ok r' /\ tr_row r' = r /\
    tr_timestamp r' = Some s /\
    tr_date r' = Some (DateType (fromtimestamp utc_offset s)).
Proof.
  intros Hts. unfold with_time_columns. rewrite Hts. simpl.
  eexists. split; [reflexivity|]. done.
Qed.

(** A null timestamp makes the date UDF raise: the row has no date. *)
Lemma with_time_columns_null_timestamp (utc_offset : Z -> Z) (r : LogRow) :
  get_timestamp (ev_ts (lr_event r)) = Ok None ->
  with_time_columns utc_offset r = Raise TypeError.
Proof. intros Hts. unfold with_time_columns. by rewrite Hts. Qed.

(** C5, as the code has it. For every event row whose [ts] divided by 1000
    with truncation is a 32-bit signed integer, the derived timestamp is
    that truncated quotient. *)
Theorem timestamp_truncates (utc_offset : Z -> Z) (r : LogRow) (ts : Z) :
  ev_ts (lr_event r) = Some ts ->
  - 2147483648 <= Z.quot ts 1000 <= 2147483647 ->
  exists r', with_time_columns utc_offset r = Ok r' /\
    tr_timestamp r' = Some (Z.quot ts 1000).
Proof.
  intros Hts Hq.
  destruct (with_time_columns_timestamp utc_offset r (Z.quot ts 1000))
    as (r' & Hr' & _ & Ht & _).
  - rewrite Hts. by apply get_timestamp_in_range.
  - by exists r'.
Qed.

Lemma timestamp_truncates_1542837407796 :
  exists r',
    with_time_columns utc (mkLogRow (event_at 1542837407796) 1) = Ok r' /\
    tr_timestamp r' = Some 1542837407.
Proof.
  apply (timestamp_truncates utc (mkLogRow (event_at 1542837407796) 1)
           1542837407796).
  - reflexivity.
  - vm_compute. split; discriminate.
Defined.

(** C5 does not hold as stated: at [ts = 2147483648000] the derived
    timestamp is not the truncated quotient 2147483648. *)
Lemma timestamp_not_quotient_2147483648000 :
  get_timestamp (ev_ts (event_at 2147483648000))
    <> Ok (Some (Z.quot 2147483648000 1000)).
Proof. vm_compute. discriminate. Qed.



(** ** Users *)


Lemma ts_le_total (a b : option Z) : ts_le a b = false -> ts_le b a = true.
Proof.
  unfold ts_le. destruct a, b; simpl; try done.
  rewrite negb_false_iff, negb_true_iff. lia.
Qed.

Lemma ts_le_trans (a b c : option Z) :
  ts_le a b = true -> ts_le b c = true -> ts_le a c = true.
Proof.
  unfold ts_le. destruct a, b, c; simpl; try done.
  rewrite !negb_true_iff. lia.
Qed.

Lemma length_filter_zero {A} (p : A -> bool) (l : list A) :
  length (List.filter p l) = 0%nat <-> (forall x, x ∈ l -> p x = false).
Proof.
  induction l as [|x l IH]; simpl.
  - split; [|done]. intros _ y Hy. by apply elem_of_nil in Hy.
  - destruct (p x) eqn:E; simpl.
    + split; [done|]. intros H. specialize (H x (list_elem_of_here _ _)). congruence.
    + rewrite IH. split.
      * intros H y Hy. apply elem_of_cons in Hy as [->|Hy]; auto.
      * intros H y Hy. apply H. by apply list_elem_of_further.
Qed.

(** A row has number 1 exactly when its [ts] is above that of every
    earlier row of its partition and not below that of any later one. *)
Lemma row_number_one (before after : list EventRecord) (e : EventRecord) :
  row_number before after e = 1 <->
  (forall e', e' ∈ before -> ev_userId e' = ev_userId e ->
     ts_le (ev_ts e) (ev_ts e') = false) /\
  (forall e', e' ∈ after -> ev_userId e' = ev_userId e ->
     ts_le (ev_ts e') (ev_ts e) = true).
Proof.
  unfold row_number.
  set (n1 := length _). set (n2 := length _).
  assert (row_eq : 1 + Z.of_nat n1 + Z.of_nat n2 = 1 <-> n1 = 0%nat /\ n2 = 0%nat) by lia.
  rewrite row_eq. unfold n1, n2. rewrite !length_filter_zero.
  unfold same_user, ts_le.
  split; intros [H1 H2]; split; intros e' He'.
  - intros Hu. specialize (H1 e' He'). rewrite bool_decide_eq_true_2 in H1 by done.
    simpl in H1. done.
  - intros Hu. specialize (H2 e' He'). rewrite bool_decide_eq_true_2 in H2 by done.
    simpl in H2. by rewrite H2.
  - specialize (H1 e' He'). case_bool_decide; simpl; [auto|done].
  - specialize (H2 e' He'). case_bool_decide; simpl; [|done].
    apply negb_true_iff. auto.
Qed.


Lemma with_row_number_events (before df : list EventRecord) :
  List.map lr_event (with_row_number before df) = df.
Proof.
  revert before. induction df as [|e after IH]; intros before; simpl; [done|].
  by rewrite IH.
Qed.

Lemma first_of_covered (uid : option string) (df before : list EventRecord) :
  (covered uid before df ->
   List.filter (first_of uid) (with_row_number before df) = []) /\
  (~ covered uid before df ->
   exists r, List.filter (first_of uid) (with_row_number before df) = [r]).
Proof.
  revert before. induction df as [|e after IH]; intros before.
  { split; [done|]. intros H. destruct H. constructor. }
  destruct (IH (before ++ [e])) as [IH0 IH1]. clear IH.
  change (List.filter (first_of uid) (with_row_number before (e :: after)))
    with (if (row_number before after e =? 1)
               && bool_decide (ev_userId e = uid)
          then mkLogRow e (row_number before after e)
               :: List.filter (first_of uid)
                    (with_row_number (before ++ [e]) after)
          else List.filter (first_of uid)
                 (with_row_number (before ++ [e]) after)).
  case_bool_decide as Hu; rewrite ?andb_false_r.
  2:{ (* another partition *)
    assert (covered uid before (e :: after) <->
            covered uid (before ++ [e]) after) as Hc.
    { unfold covered. rewrite Forall_cons. split.
      - intros [_ H]. eapply Forall_impl; [exact H|]. simpl.
        intros a Ha Hau. apply Exists_app. left. auto.
      - intros H. split; [done|]. eapply Forall_impl; [exact H|]. simpl.
        intros a Ha Hau. specialize (Ha Hau).
        apply Exists_app in Ha as [Ha|Ha]; [done|].
        apply Exists_cons in Ha as [[? _]|Ha]; [done|].
        by apply Exists_nil in Ha. }
    rewrite Hc. by split. }
  rewrite andb_true_r.
  destruct (Z.eqb_spec (row_number before after e) 1) as [Hn|Hn].
  - (* [e] is the first of its partition *)
    apply row_number_one in Hn as [Hb Ha].
    assert (covered uid (before ++ [e]) after) as Hc.
    { unfold covered. apply Forall_forall. intros a Hin Hau.
      apply Exists_app. right. apply Exists_cons. left. split; [done|].
      apply Ha; [done|congruence]. }
    rewrite (IH0 Hc). split; [|eauto].
    intros Hcov. exfalso. unfold covered in Hcov.
    apply Forall_cons in Hcov as [He _]. specialize (He Hu).
    apply Exists_exists in He as (b & Hbin & Hbu & Hle).
    specialize (Hb b Hbin ltac:(congruence)). congruence.
  - (* some row of the partition sorts before [e] *)
    assert (covered uid before (e :: after) <->
            covered uid (before ++ [e]) after) as Hc.
    { unfold covered. rewrite Forall_cons. split.
      - intros [_ H]. eapply Forall_impl; [exact H|]. simpl.
        intros a Ha Hau. apply Exists_app. left. auto.
      - intros H.
        assert (Exists (fun b => ev_userId b = uid /\
                  ts_le (ev_ts e) (ev_ts b) = true) before) as Hecov.
        { destruct (decide (Exists (fun b => ev_userId b = uid /\
                  ts_le (ev_ts e) (ev_ts b) = true) before)) as [|Hnot];
            [done|].
          exfalso. apply Hn. apply row_number_one. split.
          - intros b Hbin Hbu.
            destruct (ts_le (ev_ts e) (ev_ts b)) eqn:E; [|done].
            destruct Hnot. apply Exists_exists. exists b.
            split; [done|]. split; [congruence|done].
          - intros a Hain Hau.
            destruct (ts_le (ev_ts a) (ev_ts e)) eqn:E; [done|].
            exfalso. rewrite Forall_forall in H.
            specialize (H a Hain ltac:(congruence)).
            apply Exists_app in H as [H|H].
            + apply Exists_exists in H as (b & Hbin & Hbu & Hle).
              destruct Hnot. apply Exists_exists. exists b.
              split; [done|]. split; [done|].
              eapply ts_le_trans; [|exact Hle].
              by apply ts_le_total.
            + apply Exists_cons in H as [[_ H]|H]; [congruence|].
              by apply Exists_nil in H. }
        split; [done|]. eapply Forall_impl; [exact H|]. simpl.
        intros a Ha Hau. specialize (Ha Hau).
        apply Exists_app in Ha as [Ha|Ha]; [done|].
        apply Exists_cons in Ha as [[_ Hle]|Ha];
          [|by apply Exists_nil in Ha].
        apply Exists_exists in Hecov as (b & Hbin & Hbu & Hle').
        apply Exists_exists. exists b. split; [done|]. split; [done|].
        by eapply ts_le_trans. }
    rewrite Hc. by split.
Qed.

Lemma is_NextSong_page (e : EventRecord) :
  is_NextSong e = true <-> ev_page e = Some "NextSong".
Proof.
  unfold is_NextSong, sql_eq, holds. destruct (ev_page e) as [p|]; [|done].
  case_bool_decide; split; congruence.
Qed.

Lemma elem_of_filter_bool {A} (p : A -> bool) (l : list A) (x : A) :
  x ∈ List.filter p l <-> x ∈ l /\ p x = true.
Proof. rewrite !list_elem_of_In. apply List.filter_In. Qed.

Lemma filter_map_select {A B} (p : B -> bool) (f : A -> B) (l : list A) :
  List.filter p (List.map f l) = List.map f (List.filter (fun x => p (f x)) l).
Proof.
  induction l as [|x l IH]; simpl; [done|].
  destruct (p (f x)); simpl; by rewrite IH.
Qed.

Lemma filter_filter_bool {A} (p q : A -> bool) (l : list A) :
  List.filter p (List.filter q l) = List.filter (fun x => q x && p x) l.
Proof.
  induction l as [|x l IH]; simpl; [done|].
  destruct (q x); simpl; [|done]. destruct (p x); by rewrite IH.
Qed.

(** The rows of the users table for one [user_id]. *)
Lemma users_table_of_user (log_data : list EventRecord)
    (uid : option string) :
  List.filter (fun u => bool_decide (us_user_id u = uid))
    (users_table log_data)
  = List.map users_select
      (List.filter (first_of uid) (play_events log_data)).
Proof.
  unfold users_table. rewrite filter_map_select, filter_filter_bool.
  reflexivity.
Qed.



(** The users example: user 10, free at [ts = 100] and paid at
    [ts = 500], is paid in the users table. *)
Example users_table_user10 :
  users_table [user10_event 100 "free"; user10_event 500 "paid"]
  = [mkUsers (Some "10") (Some "A") (Some "B") (Some "M") (Some "paid")].
Proof. reflexivity. Qed.

(** ** Time *)


Lemma map_fmap {A B} (f : A -> B) (l : list A) : List.map f l = f <$> l.
Proof. reflexivity. Qed.

Lemma for_each_row_ok {A B} (f : A -> result B) (df : list A)
    (df' : list B) :
  for_each_row f df = Ok df' -> Forall2 (fun r r' => f r = Ok r') df df'.
Proof.
  revert df'. induction df as [|r rest IH]; simpl; intros df' H.
  - injection H as <-. constructor.
  - destruct (f r) as [r'|] eqn:Er; simpl in H; [|done].
    destruct (for_each_row f rest) as [rest'|]; simpl in H; [|done].
    injection H as <-. constructor; auto.
Qed.

Lemma for_each_row_total {A B} (f : A -> result B) (df : list A) :
  Forall (fun r => exists r', f r = Ok r') df ->
  exists df', for_each_row f df = Ok df'.
Proof.
  induction 1 as [|r rest [r' Hr] _ [rest' IH]]; simpl; [by eexists|].
  rewrite Hr, IH. simpl. by eexists.
Qed.

(** A row that has its time columns has a timestamp of 32 bits, and its
    time columns are those of that second. *)
Lemma with_time_columns_ok (utc_offset : Z -> Z) (r : LogRow)
    (r' : TimedRow) :
  with_time_columns utc_offset r = Ok r' ->
  exists s, get_timestamp (ev_ts (lr_event r)) = Ok (Some s) /\
    tr_row r' = r /\ tr_timestamp r' = Some s /\
    tr_date r' = Some (DateType (fromtimestamp utc_offset s)) /\
    time_select r' = time_row_of utc_offset s.
Proof.
  unfold with_time_columns. intros H.
  destruct (get_timestamp (ev_ts (lr_event r))) as [[s|]|]; simpl in H;
    [|done|done].
  injection H as <-. by exists s.
Qed.

(** The play events of a run that reaches the time table. *)
Lemma timed_events_ok (utc_offset : Z -> Z) (log_data : list EventRecord)
    (df : list TimedRow) :
  timed_events utc_offset log_data = Ok df ->
  Forall2 (fun r r' => with_time_columns utc_offset r = Ok r')
    (play_events log_data) df.
Proof. apply for_each_row_ok. Qed.

Lemma play_events_events (log_data : list EventRecord) :
  List.map lr_event (play_events log_data)
  = List.filter is_NextSong log_data.
Proof. apply with_row_number_events. Qed.

(** What a run that reaches the time table computed. *)
Lemma time_table_ok (utc_offset : Z -> Z) (log_data : list EventRecord)
    (tt : list time_row) :
  time_table utc_offset log_data = Ok tt ->
  exists df,
    Forall2 (fun r r' => with_time_columns utc_offset r = Ok r')
      (play_events log_data) df /\
    tt = dropDuplicates (List.map time_select df).
Proof.
  unfold time_table. intros H.
  destruct (timed_events utc_offset log_data) as [df|] eqn:Edf;
    simpl in H; [|done].
  injection H as <-. exists df. split; [by apply timed_events_ok|done].
Qed.

Lemma songplays_table_ok (utc_offset : Z -> Z)
    (log_data : list EventRecord) (song_df : list SongRecord)
    (tbl : list songplays_row) :
  songplays_table utc_offset log_data song_df = Ok tbl ->
  exists df,
    Forall2 (fun r r' => with_time_columns utc_offset r = Ok r')
      (play_events log_data) df /\
    tbl = List.map songplays_select (left_join join_cond df song_df).
Proof.
  unfold songplays_table. intros H.
  destruct (timed_events utc_offset log_data) as [df|] eqn:Edf;
    simpl in H; [|done].
  injection H as <-. exists df. split; [by apply timed_events_ok|done].
Qed.

(** The events of the frame are the events that pass the filter. *)
Lemma play_events_elem (log_data : list EventRecord) (r : LogRow) :
  r ∈ play_events log_data ->
  lr_event r ∈ log_data /\ ev_page (lr_event r) = Some "NextSong".
Proof.
  intros Hr. rewrite <- is_NextSong_page, <- elem_of_filter_bool.
  rewrite <- play_events_events, map_fmap. by apply list_elem_of_fmap_2.
Qed.

Lemma play_events_of_event (log_data : list EventRecord) (e : EventRecord) :
  e ∈ log_data -> ev_page e = Some "NextSong" ->
  exists r, r ∈ play_events log_data /\ lr_event r = e.
Proof.
  intros Hin Hp.
  assert (e ∈ List.map lr_event (play_events log_data)) as He.
  { rewrite play_events_events, elem_of_filter_bool.
    by rewrite is_NextSong_page. }
  rewrite map_fmap in He. apply list_elem_of_fmap in He as (r & -> & Hr).
  by exists r.
Qed.

(** The run reaches the time table when every play event has a [ts] whose
    seconds fit 32 bits. *)
Lemma timed_events_total (utc_offset : Z -> Z)
    (log_data : list EventRecord) :
  (forall e, e ∈ log_data -> ev_page e = Some "NextSong" ->
     exists ts, ev_ts e = Some ts /\
       - 2147483648 <= Z.quot ts 1000 <= 2147483647) ->
  exists df, timed_events utc_offset log_data = Ok df.
Proof.
  intros Hts. apply for_each_row_total. apply Forall_forall.
  intros r Hr. destruct (play_events_elem _ _ Hr) as [He Hp].
  destruct (Hts _ He Hp) as (ts & Ets & Hq).
  destruct (with_time_columns_timestamp utc_offset r (Z.quot ts 1000))
    as (r' & Hr' & _).
  { rewrite Ets. by apply get_timestamp_in_range. }
  by exists r'.
Qed.

Lemma time_table_rows (utc_offset : Z -> Z) (log_data : list EventRecord)
    (tt : list time_row) (row : time_row) :
  time_table utc_offset log_data = Ok tt ->
  row ∈ tt <->
  exists e s, e ∈ log_data /\ ev_page e = Some "NextSong" /\
    get_timestamp (ev_ts e) = Ok (Some s) /\ row = time_row_of utc_offset s.
Proof.
  intros H. destruct (time_table_ok _ _ _ H) as (df & Edf & ->).
  rewrite dropDuplicates_elem, map_fmap, list_elem_of_fmap. split.
  - intros (r' & -> & Hr').
    apply list_elem_of_lookup in Hr' as [i Hi].
    destruct (Forall2_lookup_r _ _ _ _ _ Edf Hi) as (r & Hri & Hok).
    apply with_time_columns_ok in Hok as (s & Hs & _ & _ & _ & Hsel).
    apply list_elem_of_lookup_2 in Hri.
    destruct (play_events_elem _ _ Hri).
    by exists (lr_event r), s.
  - intros (e & s & Hin & Hp & Hs & ->).
    destruct (play_events_of_event _ _ Hin Hp) as (r & Hr & <-).
    apply list_elem_of_lookup in Hr as [i Hi].
    destruct (Forall2_lookup_l _ _ _ _ _ Edf Hi) as (r' & Hri & Hok).
    exists r'. split; [|by eapply list_elem_of_lookup_2].
    apply with_time_columns_ok in Hok as (s' & Hs' & _ & _ & _ & Hsel).
    rewrite Hsel. congruence.
Qed.

(** Every [start_time] of the time table is a 32-bit signed integer. *)
Lemma time_table_start_time_int32 (utc_offset : Z -> Z)
    (log_data : list EventRecord) (tt : list time_row) (row : time_row) :
  time_table utc_offset log_data = Ok tt -> row ∈ tt ->
  exists s, ti_start_time row = Some s /\
    - 2147483648 <= s <= 2147483647.
Proof.
  intros Htt Hrow.
  apply (time_table_rows _ _ _ _ Htt) in Hrow as (e & s & _ & _ & Hs & ->).
  exists s. split; [done|].
  destruct (ev_ts e) as [ts|]; [|done]. simpl in Hs.
  injection Hs as Hs. unfold IntegerType in Hs.
  destruct (Z.leb_spec (-2147483648) (get_timestamp_lambda ts));
    destruct (Z.leb_spec (get_timestamp_lambda ts) 2147483647);
    simpl in Hs; try done.
  injection Hs as <-. lia.
Qed.

(** C7. The time table of a run has exactly one row for each derived
    timestamp of the play events: no [start_time] occurs in two rows, and
    the [start_time] values are the timestamps of the play events. *)
Theorem time_table_start_time_key (utc_offset : Z -> Z)
    (log_data : list EventRecord) (tt : list time_row) :
  time_table utc_offset log_data = Ok tt ->
  NoDup (List.map ti_start_time tt) /\
  (forall s : option Z, s ∈ List.map ti_start_time tt <->
     exists e, e ∈ log_data /\ ev_page e = Some "NextSong" /\
       get_timestamp (ev_ts e) = Ok s).
Proof.
  intros Htt. split.
  - rewrite map_fmap. apply NoDup_fmap_2_strong.
    + intros x y Hx Hy Hxy.
      apply (time_table_rows _ _ _ _ Htt) in Hx as (ex & sx & _ & _ & _ & ->).
      apply (time_table_rows _ _ _ _ Htt) in Hy as (ey & sy & _ & _ & _ & ->).
      simpl in Hxy. by injection Hxy as ->.
    + destruct (time_table_ok _ _ _ Htt) as (df & _ & ->).
      apply dropDuplicates_NoDup.
  - intros s. rewrite map_fmap, list_elem_of_fmap. split.
    + intros (row & -> & Hrow).
      apply (time_table_rows _ _ _ _ Htt) in Hrow
        as (e & s & Hin & Hp & Hs & ->).
      by exists e.
    + intros (e & Hin & Hp & Hs).
      assert (exists s', s = Some s') as [s' ->].
      { destruct (time_table_ok _ _ _ Htt) as (df & Edf & _).
        destruct (play_events_of_event _ _ Hin Hp) as (r & Hr & <-).
        apply list_elem_of_lookup in Hr as [i Hi].
        destruct (Forall2_lookup_l _ _ _ _ _ Edf Hi) as (r' & _ & Hok).
        apply with_time_columns_ok in Hok as (s' & Hs' & _).
        exists s'. congruence. }
      exists (time_row_of utc_offset s'). split; [done|].
      apply (time_table_rows _ _ _ _ Htt). by exists e, s'.
Qed.

Lemma time_table_start_time_key_same_second :
  NoDup (List.map ti_start_time [time_row_of utc 946684800]) /\
  (forall s : option Z,
     s ∈ List.map ti_start_time [time_row_of utc 946684800] <->
     exists e, e ∈ [event_at 946684800000; event_at 946684800999] /\
       ev_page e = Some "NextSong" /\ get_timestamp (ev_ts e) = Ok s).
Proof.
  apply (time_table_start_time_key utc
           [event_at 946684800000; event_at 946684800999]).
  vm_compute. reflexivity.
Defined.

(** ** Songplays *)

(** The join condition holds exactly when the three pairs of columns are
    non-null and equal. *)
Lemma match_cond_holds (e : EventRecord) (s : SongRecord) :
  holds (match_cond e s) = true <->
  exists song artist len,
    ev_song e = Some song /\ sr_title s = Some song /\
    ev_artist e = Some artist /\ sr_artist_name s = Some artist /\
    ev_length e = Some len /\ sr_duration s = Some len.
Proof.
  unfold match_cond, sql_eq, sql_and, holds.
  destruct (ev_song e) as [a|], (sr_title s) as [a'|],
    (ev_artist e) as [b|], (sr_artist_name s) as [b'|],
    (ev_length e) as [c|], (sr_duration s) as [c'|];
    repeat case_bool_decide; subst;
    split; try done; try (intros (?&?&?&?&?&?&?&?&?); congruence);
    try (intros _; by eexists _, _, _).
Qed.

(** The rows one row of [df] contributes to the join. *)
Lemma left_join_cons {A B} (cond : A -> B -> option bool) (l : A)
    (left : list A) (right : list B) :
  left_join cond (l :: left) right
  = left_join cond [l] right ++ left_join cond left right.
Proof. unfold left_join. simpl. by rewrite app_nil_r. Qed.

Lemma left_join_one_length {A B} (cond : A -> B -> option bool) (l : A)
    (right : list B) :
  length (left_join cond [l] right)
  = Nat.max 1 (length (List.filter (fun r => holds (cond l r)) right)).
Proof.
  unfold left_join. simpl. rewrite app_nil_r.
  destruct (List.filter _ right) as [|m ms]; simpl; [done|].
  by rewrite length_map.
Qed.

Lemma left_join_one_unmatched {A B} (cond : A -> B -> option bool) (l : A)
    (right : list B) :
  length (List.filter (fun r => holds (cond l r)) right) = 0%nat ->
  left_join cond [l] right = [(l, None)].
Proof.
  unfold left_join. simpl. rewrite app_nil_r.
  by destruct (List.filter _ right).
Qed.

Lemma left_join_one_left {A B} (cond : A -> B -> option bool) (l : A)
    (right : list B) :
  Forall (fun j => fst j = l) (left_join cond [l] right).
Proof.
  unfold left_join. simpl. rewrite app_nil_r.
  assert (forall ms, Forall (fun j : A * option B => fst j = l)
            (List.map (fun r => (l, Some r)) ms)) as Hall.
  { intros ms. induction ms; constructor; auto. }
  destruct (List.filter _ right) as [|m ms]; [by repeat constructor|].
  apply (Hall (m :: ms)).
Qed.

Lemma songplays_groups (utc_offset : Z -> Z) (song_df : list SongRecord)
    (rs : list LogRow) (df : list TimedRow) :
  Forall2 (fun r r' => with_time_columns utc_offset r = Ok r') rs df ->
  exists groups,
    List.map songplays_select (left_join join_cond df song_df)
      = concat groups /\
    Forall2 (rows_of_event song_df) (List.map lr_event rs) groups.
Proof.
  induction 1 as [|r r' rs df Hr _ (groups & Hc & Hg)].
  - exists []. split; [done|constructor].
  - exists (List.map songplays_select
              (left_join join_cond [r'] song_df) :: groups).
    split.
    + rewrite left_join_cons, List.map_app, Hc. done.
    + change (List.map lr_event (r :: rs))
        with (lr_event r :: List.map lr_event rs).
      constructor; [|done].
      apply with_time_columns_ok in Hr as (s & _ & Hrow & _).
      assert (Hm : length (List.filter (fun s => holds (join_cond r' s))
                             song_df) = catalog_matches song_df (lr_event r)).
      { unfold catalog_matches, join_cond. by rewrite Hrow. }
      split; [|split].
      * by rewrite length_map, left_join_one_length, Hm.
      * rewrite map_fmap. apply Forall_fmap.
        eapply Forall_impl; [apply left_join_one_left|].
        intros [l o] Hl. simpl in Hl. subst l. simpl. by rewrite Hrow.
      * intros H0. rewrite <- Hm in H0.
        rewrite (left_join_one_unmatched _ _ _ H0). by eexists.
Qed.

Lemma concat_length_ones {A B} (P : A -> list B -> Prop) (l : list A)
    (gs : list (list B)) :
  Forall2 P l gs -> Forall2 (fun x g => P x g -> length g = 1%nat) l gs ->
  length (concat gs) = length l.
Proof.
  induction 1 as [|x g l gs Hx _ IH]; [done|].
  intros H. apply Forall2_cons in H as [Hg H].
  simpl. rewrite length_app, (Hg Hx), (IH H). done.
Qed.

Lemma concat_length_at_least {A B} (P : A -> list B -> Prop) (l : list A)
    (gs : list (list B)) :
  Forall2 P l gs -> (forall x g, P x g -> (1 <= length g)%nat) ->
  (length l <= length (concat gs))%nat.
Proof.
  intros H HP. induction H as [|x g l gs Hx _ IH]; [done|].
  simpl. rewrite length_app. specialize (HP x g Hx). lia.
Qed.

(** C1, as the code has it. In a run that reaches the songplays table,
    every play event contributes as many rows as catalog rows match it,
    and one row, with null [song_id] and [artist_id], when none does: the
    table has at least as many rows as there are play events, and exactly
    as many when no play event matches more than one catalog row. *)
Theorem songplays_rows_per_event (utc_offset : Z -> Z)
    (log_data : list EventRecord) (song_df : list SongRecord)
    (tbl : list songplays_row) :
  songplays_table utc_offset log_data song_df = Ok tbl ->
  (exists groups, tbl = concat groups /\
     Forall2 (rows_of_event song_df) (List.filter is_NextSong log_data)
       groups) /\
  (length (List.filter is_NextSong log_data) <= length tbl)%nat /\
  (Forall (fun e => (catalog_matches song_df e <= 1)%nat)
     (List.filter is_NextSong log_data) ->
   length tbl = length (List.filter is_NextSong log_data)).
Proof.
  intros H. destruct (songplays_table_ok _ _ _ _ H) as (df & Edf & ->).
  destruct (songplays_groups utc_offset song_df _ _ Edf)
    as (groups & Hc & Hg).
  rewrite play_events_events in Hg. rewrite Hc.
  split; [by exists groups|]. split.
  - eapply concat_length_at_least; [exact Hg|].
    intros e g (Hl & _). lia.
  - intros Hle. eapply concat_length_ones; [exact Hg|].
    clear Hc. induction Hg as [|e g es gs He _ IH]; constructor.
    + intros (Hl & _). apply Forall_cons in Hle as [Hle _]. lia.
    + apply IH. by apply Forall_cons in Hle as [_ Hle].
Qed.

Lemma songplays_rows_per_event_scenario :
  (exists groups, [scenario_songplay] = concat groups /\
     Forall2 (rows_of_event [scenario_song])
       (List.filter is_NextSong [scenario_event]) groups) /\
  (length (List.filter is_NextSong [scenario_event])
   <= length [scenario_songplay])%nat /\
  (Forall (fun e => (catalog_matches [scenario_song] e <= 1)%nat)
     (List.filter is_NextSong [scenario_event]) ->
   length [scenario_songplay]
   = length (List.filter is_NextSong [scenario_event])).
Proof.
  apply (songplays_rows_per_event utc [scenario_event] [scenario_song]).
  vm_compute. reflexivity.
Defined.

(** C1 does not hold as stated: one play event that matches two catalog
    rows makes two songplays rows. *)
Lemma songplays_two_rows_for_one_event :
  exists tbl,
    songplays_table utc [scenario_event] [scenario_song; scenario_song]
      = Ok tbl /\
    length tbl <> length (List.filter is_NextSong [scenario_event]).
Proof.
  exists [scenario_songplay; scenario_songplay].
  split; [vm_compute; reflexivity|]. vm_compute. discriminate.
Qed.

(** C4. The end-to-end scenario: one catalog record and one play event
    with the same title, artist name and length give a songplays table of
    exactly one row, with [song_id = "S1"], [artist_id = "A1"] and
    [start_time = 946684800], whatever the local zone. *)
Theorem scenario_songplays (utc_offset : Z -> Z) :
  exists row,
    songplays_table utc_offset [scenario_event] [scenario_song] = Ok [row] /\
    sp_song_id row = Some "S1" /\ sp_artist_id row = Some "A1" /\
    sp_start_time row = Some 946684800.
Proof.
  eexists. split.
  - unfold songplays_table, timed_events, play_events.
    change (List.filter is_NextSong [scenario_event]) with [scenario_event].
    change (with_row_number [] [scenario_event])
      with [mkLogRow scenario_event 1].
    unfold for_each_row, with_time_columns.
    change (get_timestamp (ev_ts (lr_event (mkLogRow scenario_event 1))))
      with (Ok (A := option Z) (Some 946684800)).
    reflexivity.
  - done.
Qed.

Lemma elem_of_concat {A} (x : A) (ls : list (list A)) :
  x ∈ concat ls <-> exists l, x ∈ l /\ l ∈ ls.
Proof.
  induction ls as [|l ls IH]; simpl.
  - split; [by intros H; apply elem_of_nil in H|].
    intros (l & _ & H). by apply elem_of_nil in H.
  - rewrite elem_of_app, IH. split.
    + intros [H|(l' & H & Hl')].
      * exists l. split; [done|]. apply list_elem_of_here.
      * exists l'. split; [done|]. by apply list_elem_of_further.
    + intros (l' & H & Hl'). apply elem_of_cons in Hl' as [->|Hl'].
      * by left.
      * right. by exists l'.
Qed.

Lemma left_join_elem {A B} (cond : A -> B -> option bool) (left : list A)
    (right : list B) (j : A * option B) :
  j ∈ left_join cond left right -> fst j ∈ left.
Proof.
  induction left as [|l left IH]; [by intros H; apply elem_of_nil in H|].
  rewrite left_join_cons. intros H. apply elem_of_app in H as [H|H].
  - pose proof (left_join_one_left cond l right) as Hl.
    rewrite Forall_forall in Hl. rewrite (Hl j H).
    apply list_elem_of_here.
  - apply list_elem_of_further. auto.
Qed.

(** ** The hour column *)

(** Every row of the time table has hour 0. *)
Lemma time_table_hour (utc_offset : Z -> Z) (log_data : list EventRecord)
    (tt : list time_row) (row : time_row) :
  time_table utc_offset log_data = Ok tt -> row ∈ tt ->
  ti_hour row = Some 0.
Proof.
  intros Htt Hrow.
  by apply (time_table_rows _ _ _ _ Htt) in Hrow as (e & s & _ & _ & _ & ->).
Qed.

(** C3 fails on the hour. For [ts = 1542837407796] on a cluster in UTC the
    time table has day 21, week 47, month 11, year 2018 and weekday
    Wednesday, the calendar decomposition of epoch second 1542837407, but
    hour 0, where the hour of day of that second is 21. *)
Theorem time_table_1542837407796 :
  time_table utc [event_at 1542837407796]
  = Ok [mkTime (Some 1542837407) (Some 0) (Some 21) (Some 47) (Some 11)
               (Some 2018) (Some "Wednesday")] /\
  hour_of_day utc 1542837407 = 21.
Proof. split; vm_compute; reflexivity. Qed.

(** ** Only play events count *)

(** Every users row is made from a play event. *)
Lemma users_table_rows (log_data : list EventRecord) (u : users_row) :
  u ∈ users_table log_data ->
  exists e, e ∈ log_data /\ ev_page e = Some "NextSong" /\
    u = mkUsers (ev_userId e) (ev_firstName e) (ev_lastName e)
          (ev_gender e) (ev_level e).
Proof.
  unfold users_table. rewrite map_fmap, list_elem_of_fmap.
  intros (r & -> & Hr). apply elem_of_filter_bool in Hr as [Hr _].
  destruct (play_events_elem _ _ Hr) as [Hin Hp].
  by exists (lr_event r).
Qed.

(** Every songplays row is made from a play event. *)
Lemma songplays_table_rows (utc_offset : Z -> Z)
    (log_data : list EventRecord) (song_df : list SongRecord)
    (tbl : list songplays_row) (row : songplays_row) :
  songplays_table utc_offset log_data song_df = Ok tbl -> row ∈ tbl ->
  exists e, e ∈ log_data /\ ev_page e = Some "NextSong" /\
    get_timestamp (ev_ts e) = Ok (sp_start_time row) /\
    sp_user_id row = ev_userId e /\ sp_level row = ev_level e /\
    sp_session_id row = ev_sessionId e /\
    sp_location row = ev_location e /\ sp_user_agent row = ev_userAgent e.
Proof.
  intros H Hrow. destruct (songplays_table_ok _ _ _ _ H) as (df & Edf & ->).
  rewrite map_fmap in Hrow. apply list_elem_of_fmap in Hrow as (j & -> & Hj).
  apply left_join_elem in Hj.
  apply list_elem_of_lookup in Hj as [i Hi].
  destruct (Forall2_lookup_r _ _ _ _ _ Edf Hi) as (r & Hri & Hok).
  apply with_time_columns_ok in Hok as (s & Hs & Hrow & Hts & _).
  apply list_elem_of_lookup_2 in Hri.
  destruct (play_events_elem _ _ Hri) as [Hin Hp].
  exists (lr_event r). unfold songplays_select. simpl.
  rewrite Hrow, Hts. by repeat split.
Qed.



(** ** What the job writes *)

Lemma add_row_dirs {A} (dir : list pval) (r : A) (fs : files A)
    (d : list pval) (rows : list A) :
  (d, rows) ∈ add_row dir r fs ->
  (d = dir /\ exists rows', rows = r :: rows' /\
     (rows' = [] \/ (d, rows') ∈ fs)) \/
  (d, rows) ∈ fs.
Proof.
  induction fs as [|[d' rows'] fs IH]; simpl.
  - intros H. apply list_elem_of_singleton in H. injection H as -> ->.
    left. split; [done|]. exists []. auto.
  - case_decide as Hd.
    + subst d'. intros H. apply elem_of_cons in H as [H|H].
      * injection H as -> ->. left. split; [done|]. exists rows'.
        split; [done|]. right. apply list_elem_of_here.
      * right. by apply list_elem_of_further.
    + intros H. apply elem_of_cons in H as [H|H].
      * right. rewrite H. apply list_elem_of_here.
      * destruct (IH H) as [(-> & rows0 & -> & [->|Hin])|Hin].
        -- left. split; [done|]. exists []. auto.
        -- left. split; [done|]. exists rows0. split; [done|]. right.
           by apply list_elem_of_further.
        -- right. by apply list_elem_of_further.
Qed.

(** Every row lies under the directory of its own partition values. *)
Lemma partitionBy_dir {A} (dir_of : A -> list pval) (df : list A)
    (d : list pval) (rows : list A) (r : A) :
  (d, rows) ∈ partitionBy dir_of df -> r ∈ rows -> dir_of r = d.
Proof.
  revert d rows r. induction df as [|x df IH]; simpl; intros d rows r H Hr.
  - by apply elem_of_nil in H.
  - apply add_row_dirs in H as [(-> & rows' & -> & Hrows')|H].
    + apply elem_of_cons in Hr as [->|Hr]; [done|].
      destruct Hrows' as [->|Hin]; [by apply elem_of_nil in Hr|].
      by eapply IH.
    + by eapply IH.
Qed.

Lemma add_row_rows {A} (dir : list pval) (r : A) (fs : files A) :
  concat (List.map snd (add_row dir r fs))
  ≡ₚ r :: concat (List.map snd fs).
Proof.
  induction fs as [|[d' rows'] fs IH]; simpl; [done|].
  case_decide; simpl; [done|].
  rewrite IH. by rewrite Permutation_middle.
Qed.

(** No row is lost or added by partitioning. *)
Lemma partitionBy_rows {A} (dir_of : A -> list pval) (df : list A) :
  concat (List.map snd (partitionBy dir_of df)) ≡ₚ df.
Proof.
  induction df as [|x df IH]; simpl; [done|].
  by rewrite add_row_rows, IH.
Qed.

(** Writing with mode overwrite leaves at the location what is written,
    whatever was there. *)
Lemma write_parquet_overwrite (cols : list string) (path : string)
    (fs : table_files) (st : gmap string dataset) :
  write_parquet Overwrite cols path fs st
  = (<[path := mkDataset cols fs]> st, Ok tt).
Proof. unfold write_parquet. by destruct (st !! path). Qed.

(** The run of [main] by steps. *)
Lemma main_run (utc_offset : Z -> Z) (spark : SparkSession)
    (st : gmap string dataset) (time : list time_row)
    (songplays : list songplays_row) :
  time_table utc_offset (log_data spark) = Ok time ->
  songplays_table utc_offset (log_data spark) (song_data spark)
    = Ok songplays ->
  main utc_offset spark st =
  (<["s3a://udacity-dend/processed/songplays_table" :=
       mkDataset ["year"; "month"]
         (SongplaysFiles (partitionBy
            (fun r => [pint (sp_year r); pint (sp_month r)]) songplays))]>
   (<["s3a://udacity-dend/processed/time_table" :=
       mkDataset ["year"; "month"]
         (TimeFiles (partitionBy
            (fun r => [pint (ti_year r); pint (ti_month r)]) time))]>
   (<["s3a://udacity-dend/processed/users_table" :=
       mkDataset []
         (UsersFiles (partitionBy (fun _ => [])
            (users_table (log_data spark))))]>
   (<["s3a://udacity-dend/processed/artists_table" :=
       mkDataset []
         (ArtistsFiles (partitionBy (fun _ => [])
            (artists_table (song_data spark))))]>
   (<["s3a://udacity-dend/processed/songs_table" :=
       mkDataset ["year"; "artist_id"]
         (SongsFiles (partitionBy
            (fun r => [pint (so_year r); pstr (so_artist_id r)])
            (songs_table (song_data spark))))]> st)))), Ok tt).
Proof.
  intros Ht Hs.
  unfold main, process_song_data, process_log_data, mbind, job_bind.
  rewrite !write_parquet_overwrite.
  unfold force. rewrite Ht. rewrite !write_parquet_overwrite.
  rewrite Hs. rewrite !write_parquet_overwrite. reflexivity.
Qed.



(** The year and month of a songplays row are those of its second. *)
Lemma songplays_table_year_month (utc_offset : Z -> Z)
    (log_data : list EventRecord) (song_df : list SongRecord)
    (tbl : list songplays_row) (row : songplays_row) :
  songplays_table utc_offset log_data song_df = Ok tbl -> row ∈ tbl ->
  exists s,
    sp_start_time row = Some s /\
    sp_year row
      = Some (year_of_days (DateType (fromtimestamp utc_offset s))) /\
    sp_month row
      = Some (month_of_days (DateType (fromtimestamp utc_offset s))).
Proof.
  intros H Hrow. destruct (songplays_table_ok _ _ _ _ H) as (df & Edf & ->).
  rewrite map_fmap in Hrow. apply list_elem_of_fmap in Hrow as (j & -> & Hj).
  apply left_join_elem in Hj.
  apply list_elem_of_lookup in Hj as [i Hi].
  destruct (Forall2_lookup_r _ _ _ _ _ Edf Hi) as (r & _ & Hok).
  apply with_time_columns_ok in Hok as (s & _ & _ & Hts & Hdate & _).
  exists s. unfold songplays_select. simpl. by rewrite Hts, Hdate.
Qed.



(** The songs table of the earlier run is gone after the run: the location
    holds the new table only. *)
Example songs_table_overwritten :
  fst (main utc scenario_session earlier_store)
    !! "s3a://udacity-dend/processed/songs_table"
  = Some (mkDataset ["year"; "artist_id"]
      (SongsFiles
         [([PInt 2000; PStr "A1"],
           [mkSongs (Some "S1") (Some "Test") (Some "A1") (Some 2000)
                    (Some 4641240890982006784)])])).
Proof. vm_compute. reflexivity. Qed.

(** A play event after 2038-01-19: its timestamp is null, the date UDF
    raises on it, and the run stops after the users table. *)
Example main_aborts_beyond_int32 :
  snd (main utc (mkSparkSession [scenario_song] [event_at 2147483648000]) ∅)
  = Raise TypeError /\
  fst (main utc (mkSparkSession [scenario_song] [event_at 2147483648000]) ∅)
    !! "s3a://udacity-dend/processed/time_table" = None /\
  is_Some
    (fst (main utc
            (mkSparkSession [scenario_song] [event_at 2147483648000]) ∅)
       !! "s3a://udacity-dend/processed/users_table").
Proof. repeat split; vm_compute; eauto. Qed.

(** * Further properties of the job *)

(** ** When the run completes *)

(** The timestamp of a non-null [ts] is null exactly when the truncated
    quotient is not a 32-bit signed integer, before 1901-12-13 as well as
    after 2038-01-19; the UDF does not raise on a non-null [ts]. *)
Theorem get_timestamp_null_iff (ts : Z) :
  (get_timestamp (Some ts) = Ok None <->
   Z.quot ts 1000 < - 2147483648 \/ 2147483647 < Z.quot ts 1000) /\
  (forall x, get_timestamp (Some ts) <> Raise x).
Proof.
  rewrite get_timestamp_quot. unfold IntegerType. split; [|done].
  destruct (Z.leb_spec (-2147483648) (Z.quot ts 1000));
    destruct (Z.leb_spec (Z.quot ts 1000) 2147483647); simpl;
    split; try done; try lia; intros _; lia.
Qed.

(** A row gets its time columns only if its [ts] is non-null with seconds
    of 32 bits. *)
Lemma with_time_columns_in_range (utc_offset : Z -> Z) (r : LogRow)
    (r' : TimedRow) :
  with_time_columns utc_offset r = Ok r' ->
  exists ts, ev_ts (lr_event r) = Some ts /\
    - 2147483648 <= Z.quot ts 1000 <= 2147483647.
Proof.
  intros H. apply with_time_columns_ok in H as (s & Hs & _).
  destruct (ev_ts (lr_event r)) as [ts|]; [|done].
  exists ts. split; [done|].
  rewrite get_timestamp_quot in Hs. injection Hs as Hs.
  unfold IntegerType in Hs.
  destruct (Z.leb_spec (-2147483648) (Z.quot ts 1000));
    destruct (Z.leb_spec (Z.quot ts 1000) 2147483647); simpl in Hs;
    done || lia.
Qed.




Lemma timed_events_in_range (utc_offset : Z -> Z)
    (log_data : list EventRecord) (df : list TimedRow) :
  timed_events utc_offset log_data = Ok df ->
  forall e, e ∈ log_data -> ev_page e = Some "NextSong" ->
    exists ts, ev_ts e = Some ts /\
      - 2147483648 <= Z.quot ts 1000 <= 2147483647.
Proof.
  intros Hdf e Hin Hp. apply timed_events_ok in Hdf.
  destruct (play_events_of_event _ _ Hin Hp) as (r & Hr & <-).
  apply list_elem_of_lookup in Hr as [i Hi].
  destruct (Forall2_lookup_l _ _ _ _ _ Hdf Hi) as (r' & _ & Hok).
  by eapply with_time_columns_in_range.
Qed.

(** The run of [main] when the time columns raise. *)
Lemma main_run_raise (utc_offset : Z -> Z) (spark : SparkSession)
    (st : gmap string dataset) (x : exn) :
  timed_events utc_offset (log_data spark) = Raise x ->
  main utc_offset spark st =
  (<["s3a://udacity-dend/processed/users_table" :=
       mkDataset []
         (UsersFiles (partitionBy (fun _ => [])
            (users_table (log_data spark))))]>
   (<["s3a://udacity-dend/processed/artists_table" :=
       mkDataset []
         (ArtistsFiles (partitionBy (fun _ => [])
            (artists_table (song_data spark))))]>
   (<["s3a://udacity-dend/processed/songs_table" :=
       mkDataset ["year"; "artist_id"]
         (SongsFiles (partitionBy
            (fun r => [pint (so_year r); pstr (so_artist_id r)])
            (songs_table (song_data spark))))]> st)), Raise x).
Proof.
  intros Hx.
  unfold main, process_song_data, process_log_data, mbind, job_bind.
  rewrite !write_parquet_overwrite.
  unfold force, time_table. rewrite Hx. reflexivity.
Qed.




(** ** The rows of the time table *)


(** ** Keys of the songplays table in the other tables *)

(** A run that reaches the songplays table has reached the time table. *)
Lemma songplays_table_time_table (utc_offset : Z -> Z)
    (log_data : list EventRecord) (song_df : list SongRecord)
    (tbl : list songplays_row) :
  songplays_table utc_offset log_data song_df = Ok tbl ->
  exists tt, time_table utc_offset log_data = Ok tt.
Proof.
  unfold songplays_table, time_table.
  destruct (timed_events utc_offset log_data); simpl; [|done].
  intros _. by eexists.
Qed.

(** Every songplays row has its row in the time table: the row with its
    [start_time], and that row has its year and month. *)
Theorem songplays_start_time_in_time_table (utc_offset : Z -> Z)
    (log_data : list EventRecord) (song_df : list SongRecord)
    (tbl : list songplays_row) :
  songplays_table utc_offset log_data song_df = Ok tbl ->
  exists tt, time_table utc_offset log_data = Ok tt /\
    forall row, row ∈ tbl ->
      exists trow, trow ∈ tt /\
        ti_start_time trow = sp_start_time row /\
        ti_year trow = sp_year row /\ ti_month trow = sp_month row.
Proof.
  intros Hsp.
  destruct (songplays_table_time_table _ _ _ _ Hsp) as [tt Htt].
  exists tt. split; [done|]. intros row Hrow.
  destruct (songplays_table_rows _ _ _ _ _ Hsp Hrow)
    as (e & Hin & Hp & Hts & _).
  destruct (songplays_table_year_month _ _ _ _ _ Hsp Hrow)
    as (s & Hs & Hy & Hm).
  exists (time_row_of utc_offset s). split.
  - apply (time_table_rows _ _ _ _ Htt). exists e, s.
    by rewrite Hts, Hs.
  - by rewrite Hs, Hy, Hm.
Qed.

(** The users row of a user with a play event. *)
Lemma users_row_of_user (log_data : list EventRecord) (e0 : EventRecord) :
  e0 ∈ log_data -> ev_page e0 = Some "NextSong" ->
  exists u,
    List.filter (fun u => bool_decide (us_user_id u = ev_userId e0))
      (users_table log_data) = [u].
Proof.
  intros Hin Hp. rewrite users_table_of_user. unfold play_events.
  destruct (first_of_covered (ev_userId e0)
              (List.filter is_NextSong log_data) []) as [_ H1].
  destruct H1 as [r Hr].
  - intros Hcov. unfold covered in Hcov. rewrite Forall_forall in Hcov.
    assert (e0 ∈ List.filter is_NextSong log_data) as He0.
    { apply elem_of_filter_bool. by rewrite is_NextSong_page. }
    specialize (Hcov e0 He0 eq_refl). by apply Exists_nil in Hcov.
  - rewrite Hr. by eexists.
Qed.

(** Every songplays row has exactly one row in the users table: the row
    with its [user_id] (the null [user_id] included). *)
Theorem songplays_user_id_in_users_table (utc_offset : Z -> Z)
    (log_data : list EventRecord) (song_df : list SongRecord)
    (tbl : list songplays_row) (row : songplays_row) :
  songplays_table utc_offset log_data song_df = Ok tbl -> row ∈ tbl ->
  exists u,
    List.filter (fun u => bool_decide (us_user_id u = sp_user_id row))
      (users_table log_data) = [u].
Proof.
  intros Hsp Hrow.
  destruct (songplays_table_rows _ _ _ _ _ Hsp Hrow)
    as (e & Hin & Hp & _ & Hu & _).
  rewrite Hu. by apply users_row_of_user.
Qed.

(** The rows one left row contributes to a left join: with each right row
    that satisfies the condition, or with a null right side when none
    does. *)
Lemma left_join_one_elem {A B} (cond : A -> B -> option bool) (l : A)
    (right : list B) (j : A * option B) :
  j ∈ left_join cond [l] right ->
  fst j = l /\
  match snd j with
  | Some r => r ∈ right /\ holds (cond l r) = true
  | None => forall r, r ∈ right -> holds (cond l r) = false
  end.
Proof.
  unfold left_join. simpl. rewrite app_nil_r.
  assert (Hms : forall r, r ∈ List.filter (fun r => holds (cond l r)) right
                  <-> r ∈ right /\ holds (cond l r) = true)
    by (intros r;
        exact (elem_of_filter_bool (fun r => holds (cond l r)) right r)).
  destruct (List.filter (fun r => holds (cond l r)) right) as [|m ms].
  - intros H. apply list_elem_of_singleton in H. subst j. simpl.
    split; [done|]. intros r Hr.
    destruct (holds (cond l r)) eqn:Ec; [|done].
    assert (r ∈ @nil B) as Hnil by (by apply Hms).
    by apply elem_of_nil in Hnil.
  - intros H.
    apply (list_elem_of_fmap (fun r => (l, Some r)) (m :: ms)) in H
      as (r & -> & Hr).
    simpl. split; [done|]. by apply Hms.
Qed.

Lemma left_join_matched {A B} (cond : A -> B -> option bool)
    (left : list A) (right : list B) (l : A) (r : B) :
  (l, Some r) ∈ left_join cond left right ->
  l ∈ left /\ r ∈ right /\ holds (cond l r) = true.
Proof.
  induction left as [|l0 left IH]; [by intros H; apply elem_of_nil in H|].
  rewrite left_join_cons. intros H. apply elem_of_app in H as [H|H].
  - apply left_join_one_elem in H as [Hl Hr]. simpl in Hl, Hr. subst l0.
    split; [apply list_elem_of_here|done].
  - destruct (IH H) as (? & ? & ?).
    split; [by apply list_elem_of_further|done].
Qed.

(** A songplays row with a non-null [song_id] or [artist_id] has them from
    a catalog record with the title, artist name and duration of a play
    event, all non-null, and that record's rows are in the songs and
    artists tables. *)
Theorem songplays_ids_in_catalog_tables (utc_offset : Z -> Z)
    (log_data : list EventRecord) (song_df : list SongRecord)
    (tbl : list songplays_row) (row : songplays_row) :
  songplays_table utc_offset log_data song_df = Ok tbl -> row ∈ tbl ->
  is_Some (sp_song_id row) \/ is_Some (sp_artist_id row) ->
  exists e s song artist len,
    e ∈ log_data /\ ev_page e = Some "NextSong" /\ s ∈ song_df /\
    ev_song e = Some song /\ sr_title s = Some song /\
    ev_artist e = Some artist /\ sr_artist_name s = Some artist /\
    ev_length e = Some len /\ sr_duration s = Some len /\
    sp_song_id row = sr_song_id s /\ sp_artist_id row = sr_artist_id s /\
    sp_user_id row = ev_userId e /\ sp_session_id row = ev_sessionId e /\
    songs_select s ∈ songs_table song_df /\
    artists_select s ∈ artists_table song_df.
Proof.
  intros Hsp Hrow Hid.
  destruct (songplays_table_ok _ _ _ _ Hsp) as (df & Edf & ->).
  rewrite map_fmap in Hrow.
  apply list_elem_of_fmap in Hrow as ([r' [s|]] & -> & Hj).
  2:{ simpl in Hid. destruct Hid as [[? H]|[? H]]; discriminate. }
  apply left_join_matched in Hj as (Hr' & Hs & Hc).
  unfold join_cond in Hc.
  apply match_cond_holds in Hc
    as (song & artist & len & H1 & H2 & H3 & H4 & H5 & H6).
  apply list_elem_of_lookup in Hr' as [i Hi].
  destruct (Forall2_lookup_r _ _ _ _ _ Edf Hi) as (r & Hri & Hok).
  apply with_time_columns_ok in Hok as (t & _ & Hrow & _).
  apply list_elem_of_lookup_2 in Hri.
  destruct (play_events_elem _ _ Hri) as [Hin Hp].
  rewrite Hrow in H1, H3, H5.
  exists (lr_event r), s, song, artist, len.
  unfold songplays_select. simpl. rewrite Hrow.
  repeat split; try done.
  - apply dropDuplicates_elem. rewrite map_fmap.
    by apply list_elem_of_fmap_2.
  - apply dropDuplicates_elem. rewrite map_fmap.
    by apply list_elem_of_fmap_2.
Qed.

(** ** Keys of the songs and artists tables *)

(** A column is a key of a table without duplicate rows exactly when rows
    that agree on it are equal. *)
Lemma NoDup_key {A K} (key : A -> K) (l : list A) :
  NoDup l ->
  NoDup (List.map key l) <->
  (forall x y, x ∈ l -> y ∈ l -> key x = key y -> x = y).
Proof.
  intros Hl. rewrite map_fmap. split.
  - intros Hk x y Hx Hy Hxy.
    apply list_elem_of_lookup in Hx as [i Hi].
    apply list_elem_of_lookup in Hy as [j Hj].
    assert (i = j) as ->; [|congruence].
    eapply (NoDup_lookup _ _ _ (key x) Hk).
    + by rewrite list_lookup_fmap, Hi.
    + by rewrite list_lookup_fmap, Hj, Hxy.
  - intros Hinj. by apply NoDup_fmap_2_strong.
Qed.

(** [song_id] is a key of the songs table exactly when the catalog records
    with the same [song_id] agree on title, artist_id, year and duration:
    records that differ in one of them stay as two rows with one
    [song_id]. *)
Theorem songs_table_song_id_key (df : list SongRecord) :
  NoDup (List.map so_song_id (songs_table df)) <->
  (forall r1 r2, r1 ∈ df -> r2 ∈ df -> sr_song_id r1 = sr_song_id r2 ->
     sr_title r1 = sr_title r2 /\ sr_artist_id r1 = sr_artist_id r2 /\
     sr_year r1 = sr_year r2 /\ sr_duration r1 = sr_duration r2).
Proof.
  rewrite (NoDup_key so_song_id (songs_table df) (dropDuplicates_NoDup _)).
  unfold songs_table. split.
  - intros H r1 r2 H1 H2 Hid.
    assert (songs_select r1 = songs_select r2) as Heq.
    { apply H; [| |done]; apply dropDuplicates_elem; rewrite map_fmap;
        by apply list_elem_of_fmap_2. }
    by injection Heq.
  - intros H x y Hx Hy Hid.
    apply (proj1 (dropDuplicates_elem _ _)) in Hx.
    apply (proj1 (dropDuplicates_elem _ _)) in Hy.
    rewrite map_fmap in Hx, Hy.
    apply list_elem_of_fmap in Hx as (r1 & -> & H1).
    apply list_elem_of_fmap in Hy as (r2 & -> & H2).
    destruct (H r1 r2 H1 H2 Hid) as (Ht & Ha & Hy & Hd).
    unfold songs_select. simpl in Hid. congruence.
Qed.

(** [artist_id] is a key of the artists table exactly when the catalog
    records with the same [artist_id] agree on artist name, location,
    latitude and longitude. *)
Theorem artists_table_artist_id_key (df : list SongRecord) :
  NoDup (List.map ar_artist_id (artists_table df)) <->
  (forall r1 r2, r1 ∈ df -> r2 ∈ df -> sr_artist_id r1 = sr_artist_id r2 ->
     sr_artist_name r1 = sr_artist_name r2 /\
     sr_artist_location r1 = sr_artist_location r2 /\
     sr_artist_latitude r1 = sr_artist_latitude r2 /\
     sr_artist_longitude r1 = sr_artist_longitude r2).
Proof.
  rewrite (NoDup_key ar_artist_id (artists_table df)
             (dropDuplicates_NoDup _)).
  unfold artists_table. split.
  - intros H r1 r2 H1 H2 Hid.
    assert (artists_select r1 = artists_select r2) as Heq.
    { apply H; [| |done]; apply dropDuplicates_elem; rewrite map_fmap;
        by apply list_elem_of_fmap_2. }
    by injection Heq.
  - intros H x y Hx Hy Hid.
    apply (proj1 (dropDuplicates_elem _ _)) in Hx.
    apply (proj1 (dropDuplicates_elem _ _)) in Hy.
    rewrite map_fmap in Hx, Hy.
    apply list_elem_of_fmap in Hx as (r1 & -> & H1).
    apply list_elem_of_fmap in Hy as (r2 & -> & H2).
    destruct (H r1 r2 H1 H2 Hid) as (Ht & Ha & Hy & Hd).
    unfold artists_select. simpl in Hid. congruence.
Qed.

(** ** What process_song_data writes *)

Lemma append_inv_head (s a b : string) : s +:+ a = s +:+ b -> a = b.
Proof.
  induction s as [|c s IH]; simpl; [done|].
  intros H. injection H as H. auto.
Qed.

(** The run of [process_song_data]. *)
Lemma process_song_data_run (spark : SparkSession) (output_data : string)
    (st : gmap string dataset) :
  process_song_data spark output_data st =
  (<[output_data +:+ "artists_table" :=
       mkDataset []
         (ArtistsFiles (partitionBy (fun _ => [])
            (artists_table (song_data spark))))]>
   (<[output_data +:+ "songs_table" :=
       mkDataset ["year"; "artist_id"]
         (SongsFiles (partitionBy
            (fun r => [pint (so_year r); pstr (so_artist_id r)])
            (songs_table (song_data spark))))]> st), Ok tt).
Proof.
  unfold process_song_data, mbind, job_bind.
  by rewrite !write_parquet_overwrite.
Qed.


(** Every row of a partitioned frame lies in a directory, the one of its
    partition values. *)
Lemma partitionBy_elem {A} (dir_of : A -> list pval) (df : list A) (r : A) :
  r ∈ df ->
  exists rows, (dir_of r, rows) ∈ partitionBy dir_of df /\ r ∈ rows.
Proof.
  intros Hr. rewrite <- (partitionBy_rows dir_of df) in Hr.
  apply elem_of_concat in Hr as (rows & Hr & Hrows).
  rewrite map_fmap in Hrows.
  apply list_elem_of_fmap in Hrows as ([d rows'] & -> & Hin).
  simpl in Hr. exists rows'. split; [|done].
  by rewrite (partitionBy_dir _ _ _ _ _ Hin Hr).
Qed.

(** In the songs table written by [process_song_data] the song of every
    catalog record lies under the directory of its year and artist_id, no
    row lies under another directory than its own, and no row is written
    twice. *)
Theorem songs_files_written (spark : SparkSession) (output_data : string)
    (st : gmap string dataset) :
  exists fs,
    fst (process_song_data spark output_data st)
      !! (output_data +:+ "songs_table")
    = Some (mkDataset ["year"; "artist_id"] (SongsFiles fs)) /\
    (forall r, r ∈ song_data spark ->
       exists rows,
         ([pint (sr_year r); pstr (sr_artist_id r)], rows) ∈ fs /\
         songs_select r ∈ rows) /\
    (forall dir rows row, (dir, rows) ∈ fs -> row ∈ rows ->
       dir = [pint (so_year row); pstr (so_artist_id row)]) /\
    NoDup (concat (List.map snd fs)).
Proof.
  rewrite process_song_data_run. simpl fst.
  assert (output_data +:+ "artists_table" <> output_data +:+ "songs_table")
    as Hne by (intros H; by apply append_inv_head in H).
  eexists. split; [|split; [|split]].
  - rewrite lookup_insert_ne by done. apply lookup_insert_eq.
  - intros r Hr.
    apply (partitionBy_elem
             (fun r => [pint (so_year r); pstr (so_artist_id r)])
             (songs_table (song_data spark)) (songs_select r)).
    apply dropDuplicates_elem. rewrite map_fmap.
    by apply list_elem_of_fmap_2.
  - intros dir rows row Hdir Hrow.
    by rewrite <- (partitionBy_dir _ _ _ _ _ Hdir Hrow).
  - rewrite partitionBy_rows. apply dropDuplicates_NoDup.
Qed.

(** ** The job and the store *)

(** The run of [main] by the outcome of the time columns. *)
Lemma main_cases (utc_offset : Z -> Z) (spark : SparkSession) :
  (exists time songplays,
     time_table utc_offset (log_data spark) = Ok time /\
     songplays_table utc_offset (log_data spark) (song_data spark)
       = Ok songplays) \/
  (exists x, timed_events utc_offset (log_data spark) = Raise x).
Proof.
  unfold time_table, songplays_table.
  destruct (timed_events utc_offset (log_data spark)) as [df|x]; simpl.
  - left. by eexists _, _.
  - right. by exists x.
Qed.


(** Running the job again on the same input changes nothing: the second
    run leaves the store of the first and ends as the first did. *)
Theorem main_rerun (utc_offset : Z -> Z) (spark : SparkSession)
    (st : gmap string dataset) :
  main utc_offset spark (fst (main utc_offset spark st))
  = main utc_offset spark st.
Proof.
  destruct (main_cases utc_offset spark)
    as [(time & songplays & Ht & Hs)|[x Hx]].
  - rewrite !(main_run _ _ _ _ _ Ht Hs). simpl. f_equal.
    apply map_eq. intros path.
    rewrite !lookup_insert. by repeat case_decide.
  - rewrite !(main_run_raise _ _ _ _ Hx). simpl. f_equal.
    apply map_eq. intros path.
    rewrite !lookup_insert. by repeat case_decide.
Qed.



(** The job writes at its five locations only: every other location of
    the store keeps what it held, whether the run completes or raises. *)
Theorem main_other_locations (utc_offset : Z -> Z) (spark : SparkSession)
    (st : gmap string dataset) (path : string) :
  path <> "s3a://udacity-dend/processed/songs_table" ->
  path <> "s3a://udacity-dend/processed/artists_table" ->
  path <> "s3a://udacity-dend/processed/users_table" ->
  path <> "s3a://udacity-dend/processed/time_table" ->
  path <> "s3a://udacity-dend/processed/songplays_table" ->
  fst (main utc_offset spark st) !! path = st !! path.
Proof.
  intros H1 H2 H3 H4 H5.
  destruct (main_cases utc_offset spark)
    as [(time & songplays & Ht & Hs)|[x Hx]].
  - rewrite (main_run _ _ _ _ _ Ht Hs). simpl.
    by rewrite !lookup_insert_ne.
  - rewrite (main_run_raise _ _ _ _ Hx). simpl.
    by rewrite !lookup_insert_ne.
Qed.

Lemma main_other_locations_input :
  fst (main utc scenario_session earlier_store) !! "s3a://udacity-dend/"
  = earlier_store !! "s3a://udacity-dend/".
Proof.
  apply (main_other_locations utc scenario_session earlier_store
           "s3a://udacity-dend/"); discriminate.
Defined.

(** ** An empty catalog *)





(** ** Order and repetition of the input rows *)

Lemma dropDuplicates_map_same_rows {A B} `{EqDecision B} (f : A -> B)
    (l1 l2 : list A) :
  (forall x, x ∈ l1 <-> x ∈ l2) ->
  dropDuplicates (List.map f l1) ≡ₚ dropDuplicates (List.map f l2).
Proof.
  intros H. apply NoDup_Permutation; try apply dropDuplicates_NoDup.
  intros y. rewrite !dropDuplicates_elem, !map_fmap, !list_elem_of_fmap.
  split; intros (x & -> & Hx); exists x; (split; [done|]); by apply H.
Qed.

(** The songs, artists and time tables depend on which rows the input
    holds, not on their order nor on how often a row is read: two inputs
    with the same catalog records and the same events give the same
    tables up to the order of rows, and the time table is reached for both
    or for none. *)
Theorem dimension_tables_same_rows (utc_offset : Z -> Z)
    (songs1 songs2 : list SongRecord) (log1 log2 : list EventRecord) :
  (forall r, r ∈ songs1 <-> r ∈ songs2) ->
  (forall e, e ∈ log1 <-> e ∈ log2) ->
  songs_table songs1 ≡ₚ songs_table songs2 /\
  artists_table songs1 ≡ₚ artists_table songs2 /\
  forall tt1, time_table utc_offset log1 = Ok tt1 ->
    exists tt2, time_table utc_offset log2 = Ok tt2 /\ tt1 ≡ₚ tt2.
Proof.
  intros Hs Hl. split; [|split].
  - by apply dropDuplicates_map_same_rows.
  - by apply dropDuplicates_map_same_rows.
  - intros tt1 Ht1.
    assert (exists df1, timed_events utc_offset log1 = Ok df1) as [df1 Hdf1].
    { unfold time_table in Ht1.
      destruct (timed_events utc_offset log1); [by eexists|done]. }
    destruct (timed_events_total utc_offset log2) as [df2 Hdf2].
    { intros e He. apply (timed_events_in_range _ _ _ Hdf1). by apply Hl. }
    assert (time_table utc_offset log2
            = Ok (dropDuplicates (List.map (time_select) df2))) as Ht2.
    { unfold time_table. by rewrite Hdf2. }
    eexists. split; [exact Ht2|].
    apply NoDup_Permutation.
    + destruct (time_table_ok _ _ _ Ht1) as (? & _ & ->).
      apply dropDuplicates_NoDup.
    + apply dropDuplicates_NoDup.
    + intros row.
      rewrite (time_table_rows _ _ _ row Ht1), (time_table_rows _ _ _ row Ht2).
      split; intros (e & s & He & Hrest); exists e, s;
        (split; [by apply Hl|done]).
Qed.

Lemma dimension_tables_same_rows_repeated :
  songs_table [scenario_song; scenario_song] ≡ₚ songs_table [scenario_song] /\
  artists_table [scenario_song; scenario_song]
    ≡ₚ artists_table [scenario_song] /\
  forall tt1,
    time_table utc [scenario_event; event_on_page "Home"; scenario_event]
      = Ok tt1 ->
    exists tt2,
      time_table utc [event_on_page "Home"; scenario_event] = Ok tt2 /\
      tt1 ≡ₚ tt2.
Proof.
  apply (dimension_tables_same_rows utc [scenario_song; scenario_song]
           [scenario_song]
           [scenario_event; event_on_page "Home"; scenario_event]
           [event_on_page "Home"; scenario_event]).
  - intros r. rewrite !elem_of_cons, !elem_of_nil. tauto.
  - intros e. rewrite !elem_of_cons, !elem_of_nil. tauto.
Defined.


Lemma songplays_start_time_in_time_table_scenario :
  exists tt, time_table utc [scenario_event] = Ok tt /\
    forall row, row ∈ [scenario_songplay] ->
      exists trow, trow ∈ tt /\
        ti_start_time trow = sp_start_time row /\
        ti_year trow = sp_year row /\ ti_month trow = sp_month row.
Proof.
  apply (songplays_start_time_in_time_table utc [scenario_event]
           [scenario_song]).
  vm_compute. reflexivity.
Defined.

Lemma songplays_user_id_in_users_table_scenario :
  exists u,
    List.filter
      (fun u => bool_decide (us_user_id u = sp_user_id scenario_songplay))
      (users_table [scenario_event]) = [u].
Proof.
  apply (songplays_user_id_in_users_table utc [scenario_event]
           [scenario_song] [scenario_songplay]).
  - vm_compute. reflexivity.
  - apply list_elem_of_here.
Defined.

Lemma songplays_ids_in_catalog_tables_scenario :
  exists e s song artist len,
    e ∈ [scenario_event] /\ ev_page e = Some "NextSong" /\
    s ∈ [scenario_song] /\
    ev_song e = Some song /\ sr_title s = Some song /\
    ev_artist e = Some artist /\ sr_artist_name s = Some artist /\
    ev_length e = Some len /\ sr_duration s = Some len /\
    sp_song_id scenario_songplay = sr_song_id s /\
    sp_artist_id scenario_songplay = sr_artist_id s /\
    sp_user_id scenario_songplay = ev_userId e /\
    sp_session_id scenario_songplay = ev_sessionId e /\
    songs_select s ∈ songs_table [scenario_song] /\
    artists_select s ∈ artists_table [scenario_song].
Proof.
  apply (songplays_ids_in_catalog_tables utc [scenario_event]
           [scenario_song] [scenario_songplay]).
  - vm_compute. reflexivity.
  - apply list_elem_of_here.
  - left. by eexists.
Defined.

